(** * Editable regions and line annotations of the learning playground

    A shallow embedding of the region parser, the edit guard and the
    line-description overlay found in

    - [frontend/src/components/CodePlaygroundView.tsx]
    - [frontend/src/components/CodeEditingView.tsx]
    - the Move language support module ([createLineDescriptionHoverProvider],
      [createLineDescriptionDecorations])
    - [frontend/src/features/workshops/components/WorkshopViewer.tsx]
    - [frontend/src/features/workshops/components/WorkshopEditor.tsx]
      ([handleMoveStep], the lines field of a description)
    - [frontend/src/utils/lineUtils.ts] ([parseLineNumbers])
    - [frontend/src/services/workshopService.ts] (the workshops in local
      storage; [readMoveFile] and [getEditableRegions])

    JavaScript strings are sequences of UTF-16 code units; they are modelled
    as lists of code units ([N]).  Line numbers, indices and key codes are
    JavaScript numbers holding integers; they are modelled as [Z]. *)

From Stdlib Require Import List ZArith NArith Bool Lia String Ascii Sorted.
From Stdlib Require Import Permutation.
Import ListNotations.

Local Open Scope Z_scope.

(* ================================================================== *)
(** ** JavaScript string primitives used by the parser                *)
(* ================================================================== *)

Module Js.

(** A UTF-16 code unit. *)
Definition cu := N.

(** A JavaScript string. *)
Definition jsstring := list cu.

(** String literals of the source, written as Rocq strings. *)
Fixpoint str (s : string) : jsstring :=
  match s with
  | EmptyString => []
  | String c s' => N_of_ascii c :: str s'
  end.

Definition LF : cu := 10%N.
Definition DASH : cu := 45%N.

(** LineTerminator of ECMAScript: LF, CR, LS, PS. *)
Definition is_line_terminator (c : cu) : bool :=
  ((c =? 10) || (c =? 13) || (c =? 8232) || (c =? 8233))%N.

(** WhiteSpace and LineTerminator of ECMAScript: what [\s] matches and
    what [String.prototype.trim] strips. *)
Definition is_space (c : cu) : bool :=
  ((c =? 9) || (c =? 11) || (c =? 12) || (c =? 32) || (c =? 160)
   || (c =? 5760) || ((8192 <=? c) && (c <=? 8202))
   || (c =? 8239) || (c =? 8287) || (c =? 12288) || (c =? 65279))%N
  || is_line_terminator c.

(** [s.split("\n")]: always at least one piece. *)
Fixpoint split_lines (s : jsstring) : list jsstring :=
  match s with
  | [] => [[]]
  | c :: s' =>
      if (c =? LF)%N then [] :: split_lines s'
      else match split_lines s' with
           | l :: ls => (c :: l) :: ls
           | [] => [[c]]
           end
  end.

(** [pre] is a prefix of [s]; the rest of [s] is returned. *)
Fixpoint strip_prefix (pre s : jsstring) : option jsstring :=
  match pre, s with
  | [], _ => Some s
  | _ :: _, [] => None
  | p :: pre', c :: s' => if (p =? c)%N then strip_prefix pre' s' else None
  end.

(** [s.includes(sub)]. *)
Fixpoint includes (s sub : jsstring) : bool :=
  match strip_prefix sub s with
  | Some _ => true
  | None => match s with
            | [] => false
            | _ :: s' => includes s' sub
            end
  end.

Fixpoint drop_while (p : cu -> bool) (s : jsstring) : jsstring :=
  match s with
  | [] => []
  | c :: s' => if p c then drop_while p s' else s
  end.

(** [s.trim()]. *)
Definition trim (s : jsstring) : jsstring :=
  rev (drop_while is_space (rev (drop_while is_space s))).

(** *** A backtracking matcher for the one regular expression of the parser

    Greedy quantifiers over a character class, in continuation-passing
    style: the longest run is tried first and shortened one code unit at a
    time while the continuation fails, as a backtracking engine does. *)

Section Backtracking.
Context {A : Type}.

(** [cls*] followed by [k]; [acc] is what the star has consumed so far. *)
Fixpoint star (cls : cu -> bool) (s acc : jsstring)
         (k : jsstring -> jsstring -> option A) : option A :=
  match s with
  | c :: s' =>
      if cls c then
        match star cls s' (acc ++ [c]) k with
        | Some r => Some r
        | None => k acc s
        end
      else k acc s
  | [] => k acc s
  end.

(** [cls+] followed by [k]. *)
Definition plus (cls : cu -> bool) (s : jsstring)
           (k : jsstring -> jsstring -> option A) : option A :=
  match s with
  | c :: s' => if cls c then star cls s' [c] k else None
  | [] => None
  end.
End Backtracking.

End Js.

Import Js.

(* ================================================================== *)
(** ** The host editor's data types (monaco-editor)                   *)
(* ================================================================== *)

Module Monaco.

Record Position := mkPosition {
  lineNumber : Z;
  column : Z
}.

Record Range := mkRange {
  startLineNumber : Z;
  startColumn : Z;
  endLineNumber : Z;
  endColumn : Z
}.

(** [new monaco.Range(a, b, c, d)]: the constructor orders its end points. *)
Definition newRange (sl sc el ec : Z) : Range :=
  if (el <? sl) || ((sl =? el) && (ec <? sc))
  then mkRange el ec sl sc
  else mkRange sl sc el ec.

(** A selection is a range together with the cursor position. *)
Record Selection := mkSelection {
  range : Range;
  positionLineNumber : Z;
  positionColumn : Z
}.

(** [selection.isEmpty()]. *)
Definition isEmpty (s : Selection) : bool :=
  (startLineNumber (range s) =? endLineNumber (range s))
  && (startColumn (range s) =? endColumn (range s)).

(** [selection.getPosition()]. *)
Definition getPosition (s : Selection) : Position :=
  mkPosition (positionLineNumber s) (positionColumn s).

(** Members of monaco-editor's [KeyCode] enumeration, with the numbers the
    library gives them: the keys the guard mentions, the arrow and modifier
    keys, and the space key. *)
Module KeyCode.
Definition Backspace := 1.
Definition Tab := 2.
Definition Enter := 3.
Definition Shift := 4.
Definition Ctrl := 5.
Definition Alt := 6.
Definition Space := 10.
Definition LeftArrow := 15.
Definition UpArrow := 16.
Definition RightArrow := 17.
Definition DownArrow := 18.
Definition Delete := 20.
Definition Digit0 := 21.
Definition KeyA := 31.
Definition KeyV := 52.
Definition KeyZ := 56.
Definition Meta := 57.
End KeyCode.

Record IKeyboardEvent := mkKey {
  keyCode : Z;
  ctrlKey : bool;
  shiftKey : bool;
  altKey : bool;
  metaKey : bool
}.

End Monaco.

(* ================================================================== *)
(** ** CodePlaygroundView                                             *)
(* ================================================================== *)

Module CodePlaygroundView.
Import Monaco.

Record EditableRegion := mkRegion {
  start : Z;
  end_ : Z;
  description : jsstring;
  title : jsstring
}.

Definition BEGIN_MARKER : jsstring := str "// @editable-begin".
Definition END_MARKER : jsstring := str "// @editable-end".

Definition not_dash (c : cu) : bool := negb (c =? DASH)%N.
Definition dot (c : cu) : bool := negb (is_line_terminator c).

(** [/\/\/ @editable-begin\s*([^-]+)-\s*(.+)/] tried at the head of [s]:
    the two capture groups. *)
Definition match_here (s : jsstring) : option (jsstring * jsstring) :=
  match strip_prefix BEGIN_MARKER s with
  | None => None
  | Some s1 =>
      star is_space s1 [] (fun _ s2 =>
        plus not_dash s2 (fun g1 s3 =>
          match s3 with
          | c :: s4 =>
              if (c =? DASH)%N then
                star is_space s4 [] (fun _ s5 =>
                  plus dot s5 (fun g2 _ => Some (g1, g2)))
              else None
          | [] => None
          end))
  end.

(** [line.match(...)]: the leftmost position at which the expression
    matches. *)
Fixpoint regex_match (s : jsstring) : option (jsstring * jsstring) :=
  match match_here s with
  | Some r => Some r
  | None => match s with
            | [] => None
            | _ :: s' => regex_match s'
            end
  end.

Definition DEFAULT_TITLE : jsstring := str "Editable Section".
Definition DEFAULT_DESCRIPTION : jsstring := str "This section can be modified".

(** The variables the [forEach] callback closes over. *)
Record ParseState := mkState {
  regions : list EditableRegion;
  currentStart : option Z;
  currentTitle : jsstring;
  currentDescription : jsstring
}.

Definition initial : ParseState := mkState [] None [] [].

(** Title and description taken from a begin line. *)
Definition heading (line : jsstring) : jsstring * jsstring :=
  match regex_match line with
  | Some (g1, g2) => (trim g1, trim g2)
  | None => (DEFAULT_TITLE, DEFAULT_DESCRIPTION)
  end.

(** The body of the [forEach] callback. *)
Definition step (st : ParseState) (line : jsstring) (index : Z) : ParseState :=
  if includes line BEGIN_MARKER then
    mkState (regions st) (Some (index + 1))
            (fst (heading line)) (snd (heading line))
  else
    match includes line END_MARKER, currentStart st with
    | true, Some cs =>
        mkState (regions st ++
                   [ {| start := cs; end_ := index;
                        title := currentTitle st;
                        description := currentDescription st |} ])
                None [] []
    | _, _ => st
    end.

(** [lines.forEach((line, index) => ...)], from a given index. *)
Fixpoint forEach (lines : list jsstring) (index : Z) (st : ParseState)
  : ParseState :=
  match lines with
  | [] => st
  | line :: rest => forEach rest (index + 1) (step st line index)
  end.

Definition parseLines (lines : list jsstring) : list EditableRegion :=
  regions (forEach lines 0 initial).

(** The region list the first effect stores with [setEditableRegions]. *)
Definition parse (code : jsstring) : list EditableRegion :=
  parseLines (split_lines code).

(** *** The second effect: validation against the model's line count *)

Definition clampRegion (totalLines : Z) (region : EditableRegion)
  : EditableRegion :=
  {| start := Z.min (Z.max 1 (start region)) totalLines;
     end_ := Z.min (Z.max 1 (end_ region)) totalLines;
     description := description region;
     title := title region |}.

Definition validatedRegions (totalLines : Z)
           (editableRegions : list EditableRegion) : list EditableRegion :=
  filter (fun region => start region <=? end_ region)
         (map (clampRegion totalLines) editableRegions).

(** *** The edit guard *)

Definition isPositionEditable (validated : list EditableRegion)
           (position : Position) : bool :=
  existsb (fun region =>
             (lineNumber position >=? start region)
             && (lineNumber position <=? end_ region))
          validated.

(** The callback given to [selections.every].  Its first test,
    [if (!selection) return false], never fires: the elements of
    [getSelections()] are selection objects. *)
Definition selectionEditable (validated : list EditableRegion)
           (selection : Selection) : bool :=
  if isEmpty selection then
    isPositionEditable validated (getPosition selection)
  else
    let startLine := startLineNumber (range selection) in
    let endLine := endLineNumber (range selection) in
    existsb (fun region =>
               (startLine >=? start region) && (endLine <=? end_ region))
            validated.

Definition isEditAllowed (validated : list EditableRegion)
           (selections : list Selection) : bool :=
  forallb (selectionEditable validated) selections.

Definition isEditingKey (e : IKeyboardEvent) : bool :=
  (keyCode e =? KeyCode.Backspace)
  || (keyCode e =? KeyCode.Delete)
  || (keyCode e =? KeyCode.Enter)
  || (keyCode e =? KeyCode.Tab)
  || (ctrlKey e && (keyCode e =? KeyCode.KeyV))
  || (negb (ctrlKey e) && negb (altKey e) && negb (metaKey e)
      && (keyCode e >=? KeyCode.Digit0) && (keyCode e <=? KeyCode.KeyZ)).

(** The key-down handler.  [selections] is what [getSelections()] returned
    ([None] for [null]); the result tells whether [preventDefault] and
    [stopPropagation] were called on the event. *)
Definition onKeyDown (validated : list EditableRegion)
           (selections : option (list Selection)) (e : IKeyboardEvent) : bool :=
  match selections with
  | None => false
  | Some sels =>
      if negb (isEditAllowed validated sels) then isEditingKey e else false
  end.

(** *** The paste handler

    The editor is a collaborator: its state, the cursor it reports and its
    undo command are taken as given. *)
Section Paste.
Variable Editor : Type.
Variable editorPosition : Editor -> option Position.
Variable undo : Editor -> Editor.

(** The [onDidPaste] callback, run on the editor as the paste left it. *)
Definition onDidPaste (validated : list EditableRegion) (editor : Editor)
  : Editor :=
  match editorPosition editor with
  | Some position =>
      if negb (isPositionEditable validated position)
      then undo editor
      else editor
  | None => editor
  end.
End Paste.

End CodePlaygroundView.

(* ================================================================== *)
(** ** CodeEditingView: the same scan, without headings               *)
(* ================================================================== *)

Module CodeEditingView.

Record Region := mkRegion {
  start : Z;
  end_ : Z
}.

Definition BEGIN_MARKER : jsstring := str "// @editable-begin".
Definition END_MARKER : jsstring := str "// @editable-end".

Record ParseState := mkState {
  regions : list Region;
  currentStart : option Z
}.

Definition initial : ParseState := mkState [] None.

Definition step (st : ParseState) (line : jsstring) (index : Z) : ParseState :=
  if includes line BEGIN_MARKER then
    mkState (regions st) (Some (index + 1))
  else
    match includes line END_MARKER, currentStart st with
    | true, Some cs =>
        mkState (regions st ++ [ {| start := cs; end_ := index |} ]) None
    | _, _ => st
    end.

Fixpoint forEach (lines : list jsstring) (index : Z) (st : ParseState)
  : ParseState :=
  match lines with
  | [] => st
  | line :: rest => forEach rest (index + 1) (step st line index)
  end.

Definition parse (code : jsstring) : list Region :=
  regions (forEach (split_lines code) 0 initial).

End CodeEditingView.

(* ================================================================== *)
(** ** Line descriptions: lookup and decorations                      *)
(* ================================================================== *)

Module LineDescriptions.
Import Monaco.

Record ImageData := mkImage {
  url : jsstring;
  caption : option jsstring;
  altText : option jsstring;
  width : option Z;
  height : option Z
}.

Record LineDescription := mkDesc {
  lines : list Z;
  content : jsstring;
  image : option ImageData
}.

(** [desc.lines.includes(lineNumber)]. *)
Definition covers (lineNumber : Z) (desc : LineDescription) : bool :=
  existsb (Z.eqb lineNumber) (lines desc).

(** [lineDescriptions.find((desc) => desc.lines.includes(lineNumber))],
    the lookup of both the hover provider and the workshop viewer. *)
Definition findAt (lineNumber : Z) (lineDescriptions : list LineDescription)
  : option LineDescription :=
  find (covers lineNumber) lineDescriptions.

(** [image.altText || "Line illustration"]: an absent or empty text gives
    the default. *)
Definition altOrDefault (i : ImageData) : jsstring :=
  match altText i with
  | Some (c :: t) => c :: t
  | _ => str "Line illustration"
  end.

(** [provideHover] of [createLineDescriptionHoverProvider]: the markdown
    values of the hover, or [None] for [null]. *)
Definition provideHover (lineDescriptions : list LineDescription)
           (position : Position) : option (list jsstring) :=
  match findAt (lineNumber position) lineDescriptions with
  | Some description =>
      Some ([ str "**Line Description**"; content description ]
            ++ match image description with
               | Some i =>
                   [ str "![" ++ altOrDefault i ++ str "](" ++ url i ++ str ")" ]
               | None => []
               end)
  | None => None
  end.

Record DecorationOptions := mkOptions {
  isWholeLine : bool;
  className : jsstring;
  linesDecorationsClassName : jsstring;
  overviewRulerColor : jsstring;
  overviewRulerPosition : Z;
  minimapColor : jsstring;
  minimapPosition : Z
}.

Record Decoration := mkDecoration {
  decorationRange : Range;
  options : DecorationOptions
}.

(** The options every line-description decoration gets
    ([OverviewRulerLane.Left] and [MinimapPosition.Inline] are both 1). *)
Definition lineOptions : DecorationOptions :=
  {| isWholeLine := true;
     className := str "bg-info bg-opacity-10";
     linesDecorationsClassName := str "border-l-4 border-info";
     overviewRulerColor := str "rgb(34, 211, 238)";
     overviewRulerPosition := 1;
     minimapColor := str "rgb(34, 211, 238)";
     minimapPosition := 1 |}.

Definition lineDecoration (lineNumber : Z) : Decoration :=
  {| decorationRange := newRange lineNumber 1 lineNumber 1;
     options := lineOptions |}.

(** [createLineDescriptionDecorations]. *)
Definition createLineDescriptionDecorations
           (lineDescriptions : list LineDescription) : list Decoration :=
  flat_map (fun desc => map lineDecoration (lines desc)) lineDescriptions.

End LineDescriptions.

(* ================================================================== *)
(** ** Vocabulary of the statements                                   *)
(* ================================================================== *)

Import Monaco CodePlaygroundView.

(** How the scan classifies a line: the begin test comes first, so a line
    holding both markers counts as a begin line. *)
Inductive LineKind := KBegin | KEnd | KOther.

Definition lineKind (line : jsstring) : LineKind :=
  if includes line BEGIN_MARKER then KBegin
  else if includes line END_MARKER then KEnd
  else KOther.

Definition kind_eqb (a b : LineKind) : bool :=
  match a, b with
  | KBegin, KBegin | KEnd, KEnd | KOther, KOther => true
  | _, _ => false
  end.

Definition isSentinel (k : LineKind) : bool := negb (kind_eqb k KOther).

(** The sentinel lines of a text, in order, other lines left out. *)
Definition sentinels (lines : list jsstring) : list LineKind :=
  filter isSentinel (map lineKind lines).

(** [n] begin/end pairs, one after the other. *)
Fixpoint pairs (n : nat) : list LineKind :=
  match n with
  | O => []
  | S n' => KBegin :: KEnd :: pairs n'
  end.

(** The line numbers of the lines of kind [k], the first line of [lines]
    being numbered [n]. *)
Fixpoint numbered (k : LineKind) (lines : list jsstring) (n : Z) : list Z :=
  match lines with
  | [] => []
  | l :: rest =>
      if kind_eqb (lineKind l) k then n :: numbered k rest (n + 1)
      else numbered k rest (n + 1)
  end.

(** The begin lines of a text. *)
Definition beginLines (lines : list jsstring) : list jsstring :=
  filter (fun l => kind_eqb (lineKind l) KBegin) lines.

Definition lineCount (code : jsstring) : Z :=
  Z.of_nat (List.length (split_lines code)).

(** A region ends strictly before the next one starts. *)
Definition before (a b : EditableRegion) : Prop := end_ a < start b.

Definition inRegion (l : Z) (r : EditableRegion) : Prop :=
  start r <= l <= end_ r.

(** What the scan emits from a given index on, the regions already pushed
    left out. *)
Definition emit (lines : list jsstring) (index : Z) (cs : option Z)
           (t d : jsstring) : list EditableRegion :=
  regions (forEach lines index (mkState [] cs t d)).

(** What an open block contributes to the starts, the sentinels and the
    headings of an emission. *)
Definition openStart (cs : option Z) : list Z :=
  match cs with Some s => [s] | None => [] end.

Definition openEnd (cs : option Z) : list LineKind :=
  match cs with Some _ => [KEnd] | None => [] end.

Definition openHeading (cs : option Z) (t d : jsstring)
  : list (jsstring * jsstring) :=
  match cs with Some _ => [(t, d)] | None => [] end.

(** A region of the playground as the editing view keeps it. *)
Definition bare (r : EditableRegion) : CodeEditingView.Region :=
  CodeEditingView.mkRegion (start r) (end_ r).

(** The first scenario: begin marker on line 2, end marker on line 6. *)
Definition scenario1 : jsstring :=
  str "module playground::demo {
// @editable-begin Title - Desc
const A: u64 = 1;
const B: u64 = 2;
const C: u64 = 3;
// @editable-end
}".

(** Two correctly paired blocks. *)
Definition twoBlocks : jsstring :=
  str "module m {
// @editable-begin Fees - Set the fee
const FEE: u64 = 1;
// @editable-end
// @editable-begin
// @editable-end
}".

(** A paired block followed by a begin marker that is never closed. *)
Definition unterminated : jsstring :=
  str "// @editable-begin A - first
a
// @editable-end
b
// @editable-begin Dangling - never closed
c
d".

(** A begin marker inside an open block, and an end marker with no block
    open. *)
Definition nested : jsstring :=
  str "// @editable-begin Outer - first
a
// @editable-begin Inner - second
b
// @editable-end
// @editable-end
// @editable-begin
c
// @editable-end".

(** Each decoration of [createLineDescriptionDecorations] paired with the
    line description it was made from. *)
Definition origins (lineDescriptions : list LineDescriptions.LineDescription)
  : list (LineDescriptions.Decoration * LineDescriptions.LineDescription) :=
  flat_map (fun desc =>
              map (fun l => (LineDescriptions.lineDecoration l, desc))
                  (LineDescriptions.lines desc))
           lineDescriptions.

(** The line a decoration sits on. *)
Definition decorationLine (d : LineDescriptions.Decoration) : Z :=
  startLineNumber (LineDescriptions.decorationRange d).

(** Two descriptions sharing line 2 (the fifth scenario). *)
Definition firstAnn : LineDescriptions.LineDescription :=
  LineDescriptions.mkDesc [2; 2] (str "first") None.

Definition secondAnn : LineDescriptions.LineDescription :=
  LineDescriptions.mkDesc [2; 5] (str "second") None.

(** A minimal editor to run the paste handler on: the text, the cursor and
    an undo stack of earlier states. *)
Module TestEditor.
Record t := mk {
  text : jsstring;
  cursor : option Position;
  undoStack : list (jsstring * option Position)
}.

(** A paste is one undo step. *)
Definition paste (newText : jsstring) (newCursor : option Position) (e : t) : t :=
  mk newText newCursor ((text e, cursor e) :: undoStack e).

Definition undo (e : t) : t :=
  match undoStack e with
  | (s, c) :: rest => mk s c rest
  | [] => e
  end.
End TestEditor.

(** [twoBlocks] after two lines were pasted at the start of its line 3. *)
Definition twoBlocksPasted : jsstring :=
  str "module m {
// @editable-begin Fees - Set the fee
const DECIMALS: u8 = 8;
const SUPPLY: u64 = 100;
const FEE: u64 = 1;
// @editable-end
// @editable-begin
// @editable-end
}".

(* ================================================================== *)
(** ** CodePlaygroundView: decorations and region selection           *)
(* ================================================================== *)

Module PlaygroundDecorations.

Record RegionDecoration := mkRegionDecoration {
  decoRange : Range;
  decoWholeLine : bool;
  decoClassName : jsstring;
  decoGlyphMarginClassName : option jsstring;
  decoInlineClassName : jsstring
}.

Section Effect.

(** [model.getLineMaxColumn]: the editor throws on a line number outside
    the model, which is [None] here. *)
Variable getLineMaxColumn : Z -> option Z.

(** [model.getLineCount()]. *)
Variable totalLines : Z.

Definition editableDecoration (region : EditableRegion)
  : option RegionDecoration :=
  match getLineMaxColumn (end_ region) with
  | Some c =>
      Some {| decoRange := newRange (start region) 1 (end_ region) c;
              decoWholeLine := true;
              decoClassName := str "editable-region";
              decoGlyphMarginClassName := Some (str "editable-region-glyph");
              decoInlineClassName := str "editable-region-inline" |}
  | None => None
  end.

(** [validatedRegions.map((region) => ...)]; a throw ends the effect. *)
Fixpoint editableDecorations (validated : list EditableRegion)
  : option (list RegionDecoration) :=
  match validated with
  | [] => Some []
  | region :: rest =>
      match editableDecoration region with
      | Some d =>
          match editableDecorations rest with
          | Some ds => Some (d :: ds)
          | None => None
          end
      | None => None
      end
  end.

Definition readOnlyDecoration (fromLine toLine : Z)
  : option RegionDecoration :=
  match getLineMaxColumn toLine with
  | Some c =>
      Some {| decoRange := newRange fromLine 1 toLine c;
              decoWholeLine := true;
              decoClassName := str "readonly-region";
              decoGlyphMarginClassName := None;
              decoInlineClassName := str "readonly-background" |}
  | None => None
  end.

(** The [for (const region of validatedRegions)] loop over
    [readOnlyDecorations] and [lastEnd]. *)
Fixpoint readOnlyLoop (validated : list EditableRegion)
         (acc : list RegionDecoration) (lastEnd : Z)
  : option (list RegionDecoration * Z) :=
  match validated with
  | [] => Some (acc, lastEnd)
  | region :: rest =>
      if start region >? lastEnd + 1 then
        match readOnlyDecoration (lastEnd + 1) (start region - 1) with
        | Some d => readOnlyLoop rest (acc ++ [d]) (end_ region)
        | None => None
        end
      else readOnlyLoop rest acc (end_ region)
  end.

(** The loop, then the final read-only range when lines are left. *)
Definition readOnlyDecorations (validated : list EditableRegion)
  : option (list RegionDecoration) :=
  match readOnlyLoop validated [] 0 with
  | Some (acc, lastEnd) =>
      if lastEnd <? totalLines then
        match readOnlyDecoration (lastEnd + 1) totalLines with
        | Some d => Some (acc ++ [d])
        | None => None
        end
      else Some acc
  | None => None
  end.

(** What the effect hands to [deltaDecorations]:
    [[...editableDecorations, ...readOnlyDecorations]]. *)
Definition effectDecorations (editableRegions : list EditableRegion)
  : option (list RegionDecoration) :=
  let validated := validatedRegions totalLines editableRegions in
  match editableDecorations validated with
  | Some es =>
      match readOnlyDecorations validated with
      | Some ros => Some (es ++ ros)
      | None => None
      end
  | None => None
  end.

End Effect.

(** The [onMouseDown] listener: the new value of [selectedRegion].
    [position] is [e.target.position]; without one nothing is set. *)
Definition onMouseDown (editableRegions : list EditableRegion)
           (position : option Position) (selectedRegion : option EditableRegion)
  : option EditableRegion :=
  match position with
  | Some p =>
      find (fun r => (lineNumber p >=? start r) && (lineNumber p <=? end_ r))
           editableRegions
  | None => selectedRegion
  end.

End PlaygroundDecorations.

(* ================================================================== *)
(** ** CodePlaygroundView: the region state and the click listener    *)
(* ================================================================== *)

Module PlaygroundState.

(** The component's state as far as regions go: the [useState] cells
    [editableRegions] and [selectedRegion], and the mouse-down listeners
    registered on the editor.  [handleEditorDidMount] registers a listener
    with [editor.onMouseDown]; the listener reads [editableRegions] from
    the closure of the render whose handler was called, so each listener is
    kept here with that list. *)
Record Component := mkComponent {
  editableRegions : list EditableRegion;
  selectedRegion : option EditableRegion;
  mouseDownListeners : list (list EditableRegion)
}.

(** What happens to the component: a render with a [code] prop, followed by
    its parse effect; the editor calling [handleEditorDidMount]; a
    mouse-down in the editor, with [e.target.position]; a click on a region
    of the sidebar.  [EditorDidMount] stands in a sequence of events at the
    render whose handler the editor calls, since that render's
    [editableRegions] is what the new listener reads. *)
Inductive Event :=
| Render (code : jsstring)
| EditorDidMount
| MouseDown (position : option Position)
| RegionClick (region : EditableRegion).

(** [useState([])] and [useState(null)]; no listener yet. *)
Definition initial : Component := mkComponent [] None [].

Definition step (c : Component) (e : Event) : Component :=
  match e with
  | Render code =>
      mkComponent (parse code) (selectedRegion c) (mouseDownListeners c)
  | EditorDidMount =>
      mkComponent (editableRegions c) (selectedRegion c)
                  (mouseDownListeners c ++ [editableRegions c])
  | MouseDown position =>
      mkComponent (editableRegions c)
                  (fold_left
                     (fun selected regions =>
                        PlaygroundDecorations.onMouseDown regions position
                                                          selected)
                     (mouseDownListeners c) (selectedRegion c))
                  (mouseDownListeners c)
  | RegionClick region =>
      mkComponent (editableRegions c) (Some region) (mouseDownListeners c)
  end.

Definition run (events : list Event) (c : Component) : Component :=
  fold_left step events c.

End PlaygroundState.

(* ================================================================== *)
(** ** CodeEditingView: decorations and read-only ranges              *)
(* ================================================================== *)

Module EditingDecorations.

Section Mount.

Variable getLineMaxColumn : Z -> option Z.
Variable totalLines : Z.

(** The ranges of the editable decorations:
    [new monaco.Range(region.start, 1, region.end, 1)]. *)
Definition decorationRanges (editableRegions : list CodeEditingView.Region)
  : list Range :=
  map (fun region =>
         newRange (CodeEditingView.start region) 1
                  (CodeEditingView.end_ region) 1)
      editableRegions.

Definition readOnlyRange (fromLine toLine : Z) : option Range :=
  match getLineMaxColumn toLine with
  | Some c => Some (newRange fromLine 1 toLine c)
  | None => None
  end.

(** The loop over [readOnlyRanges] and [lastLine]. *)
Fixpoint readOnlyLoop (editableRegions : list CodeEditingView.Region)
         (acc : list Range) (lastLine : Z) : option (list Range * Z) :=
  match editableRegions with
  | [] => Some (acc, lastLine)
  | region :: rest =>
      if lastLine <? CodeEditingView.start region then
        match readOnlyRange lastLine (CodeEditingView.start region - 1) with
        | Some r => readOnlyLoop rest (acc ++ [r]) (CodeEditingView.end_ region + 1)
        | None => None
        end
      else readOnlyLoop rest acc (CodeEditingView.end_ region + 1)
  end.

Definition readOnlyRanges (editableRegions : list CodeEditingView.Region)
  : option (list Range) :=
  match readOnlyLoop editableRegions [] 1 with
  | Some (acc, lastLine) =>
      if lastLine <=? totalLines then
        match readOnlyRange lastLine totalLines with
        | Some r => Some (acc ++ [r])
        | None => None
        end
      else Some acc
  | None => None
  end.

End Mount.

End EditingDecorations.

(** *** Vocabulary for the decorations *)

(** A line lies within the lines of a range. *)
Definition rangeCovers (l : Z) (r : Range) : Prop :=
  startLineNumber r <= l <= endLineNumber r.

(** The lines no region covers, as the spans the read-only loop walks
    through: from [lastEnd + 1] up to the line before the next region, and
    from the last region to the end of the document. *)
Fixpoint spans (rs : list EditableRegion) (lastEnd totalLines : Z)
  : list (Z * Z) :=
  match rs with
  | [] => if lastEnd <? totalLines then [(lastEnd + 1, totalLines)] else []
  | r :: rest =>
      (if start r >? lastEnd + 1 then [(lastEnd + 1, start r - 1)] else [])
      ++ spans rest (end_ r) totalLines
  end.

(** A block of the text: a begin line, lines without markers, an end
    line. *)
Definition isBlock (lines : list jsstring) (r : EditableRegion) : Prop :=
  exists pre b mid e post,
    lines = pre ++ b :: mid ++ e :: post
    /\ lineKind b = KBegin
    /\ Forall (fun l => lineKind l = KOther) mid
    /\ lineKind e = KEnd
    /\ start r = Z.of_nat (List.length pre) + 1
    /\ end_ r = Z.of_nat (List.length pre) + 1 + Z.of_nat (List.length mid)
    /\ title r = fst (heading b)
    /\ description r = snd (heading b).

(** A text model of some lines: every line of the model has a last
    column, no other line has. *)
Definition modelColumns (totalLines : Z) (l : Z) : option Z :=
  if (1 <=? l) && (l <=? totalLines) then Some 80 else None.

(** The first and last line of a decoration. *)
Definition decoLines (d : PlaygroundDecorations.RegionDecoration) : Z * Z :=
  (startLineNumber (PlaygroundDecorations.decoRange d),
   endLineNumber (PlaygroundDecorations.decoRange d)).

(* ================================================================== *)
(** ** More string primitives                                         *)
(* ================================================================== *)

Module JsMore.

(** [s.startsWith(pre)]. *)
Definition startsWith (s pre : jsstring) : bool :=
  match strip_prefix pre s with
  | Some _ => true
  | None => false
  end.

(** [s.split(sep)] for a non-empty separator string: [skip] counts the
    code units of a separator still to pass over, [cur] is the piece being
    read. *)
Fixpoint splitOnAux (sep s : jsstring) (skip : nat) (cur : jsstring)
  : list jsstring :=
  match s with
  | [] => [cur]
  | c :: s' =>
      match skip with
      | S k => splitOnAux sep s' k cur
      | O =>
          match strip_prefix sep s with
          | Some _ => cur :: splitOnAux sep s' (List.length sep - 1) []
          | None => splitOnAux sep s' 0 (cur ++ [c])
          end
      end
  end.

Definition splitOn (sep s : jsstring) : list jsstring :=
  splitOnAux sep s 0 [].

(** [pieces.join(sep)]. *)
Fixpoint join (sep : jsstring) (pieces : list jsstring) : jsstring :=
  match pieces with
  | [] => []
  | [p] => p
  | p :: rest => p ++ sep ++ join sep rest
  end.

End JsMore.

Import JsMore.

(* ================================================================== *)
(** ** The Move file service: documentation, code and regions         *)
(* ================================================================== *)

Module MoveFileService.

Record MoveFile := mkMoveFile {
  documentation : jsstring;
  code : jsstring
}.

(** The [for] loop of [readMoveFile] from index [i] on: the documentation
    lines gathered and [codeStartIndex]. *)
Fixpoint docLoop (lines : list jsstring) (i : nat)
         (docs : list jsstring) : list jsstring * nat :=
  match lines with
  | [] => (docs, O)
  | l :: rest =>
      let line := trim l in
      if startsWith line (str "///") then
        docLoop rest (S i) (docs ++ [trim (skipn 3 line)])
      else if startsWith line (str "module") then (docs, i)
      else docLoop rest (S i) docs
  end.

(** [readMoveFile], given the text of the response; [None] stands for a
    failed or rejected request, which the [catch] turns into empty
    strings. *)
Definition readMoveFile (response : option jsstring) : MoveFile :=
  match response with
  | None => mkMoveFile [] []
  | Some content =>
      let lines := split_lines content in
      let '(docs, codeStartIndex) := docLoop lines 0 [] in
      mkMoveFile (join [LF] docs) (join [LF] (skipn codeStartIndex lines))
  end.

Record Region := mkRegion {
  startLine : Z;
  endLine : Z;
  description : jsstring
}.

Definition BEGIN_MARKER : jsstring := str "@editable-begin:".
Definition END_MARKER : jsstring := str "@editable-end".

Record ParseState := mkState {
  regions : list Region;
  currentRegion : option (Z * jsstring)
}.

(** The body of the [forEach] callback of [getEditableRegions].  The piece
    after the marker, [line.split(marker)[1]], exists since the line
    includes the marker. *)
Definition step (st : ParseState) (line : jsstring) (index : Z) : ParseState :=
  let lineNumber := index + 1 in
  if includes line BEGIN_MARKER then
    let description := trim (nth 1 (splitOn BEGIN_MARKER line) []) in
    mkState (regions st) (Some (lineNumber + 1, description))
  else
    match includes line END_MARKER, currentRegion st with
    | true, Some (s, d) =>
        mkState (regions st
                   ++ [ {| startLine := s; endLine := lineNumber - 1;
                           description := d |} ])
                None
    | _, _ => st
    end.

Fixpoint forEach (lines : list jsstring) (index : Z) (st : ParseState)
  : ParseState :=
  match lines with
  | [] => st
  | line :: rest => forEach rest (index + 1) (step st line index)
  end.

(** The regions of a code text. *)
Definition regionsOf (code : jsstring) : list Region :=
  regions (forEach (split_lines code) 0 (mkState [] None)).

(** [getEditableRegions], given the response to the file request. *)
Definition getEditableRegions (response : option jsstring) : list Region :=
  regionsOf (code (readMoveFile response)).

End MoveFileService.

(** A line the file service reads as the playground does: it holds the
    one begin marker exactly when it holds the other, and likewise for the
    end markers. *)
Definition markersAgree (line : jsstring) : Prop :=
  includes line MoveFileService.BEGIN_MARKER = includes line BEGIN_MARKER
  /\ includes line MoveFileService.END_MARKER = includes line END_MARKER.

(** A line that starts the code of a Move file. *)
Definition isModuleLine (l : jsstring) : bool :=
  negb (startsWith (trim l) (str "///")) && startsWith (trim l) (str "module").

(** A text whose markers carry the colon of the file service. *)
Definition colonMarkers : jsstring :=
  str "module m {
// @editable-begin: Fees
const FEE: u64 = 1;
// @editable-end
}".

(** A Move file with a documentation header. *)
Definition documented : jsstring :=
  str "/// A coin.
///   Second line.
// not documentation

module m {
}".

(* ================================================================== *)
(** ** JavaScript numbers, as far as line numbers need them           *)
(* ================================================================== *)

Module JsNumber.

(** The numbers [parseInt] and integer arithmetic on its results can
    give: not-a-number, the infinities, and the doubles that hold an
    integer.  Negative zero is not told apart from zero; the code below
    never tells them apart either. *)
Inductive number :=
| NaN
| PosInf
| NegInf
| Int (z : Z).

(** The double nearest to an integer, ties to even; integers of magnitude
    [2^1024] or more after rounding give an infinity. *)
Definition round (m : Z) : number :=
  let a := Z.abs m in
  if a <? 2 ^ 53 then Int m
  else
    let e := Z.log2 a - 52 in
    let q := Z.shiftr a e in
    let r := a mod 2 ^ e in
    let half := 2 ^ (e - 1) in
    let q' := if (half <? r) || ((r =? half) && Z.odd q) then q + 1 else q in
    let v := q' * 2 ^ e in
    if 2 ^ 1024 <=? v then (if m <? 0 then NegInf else PosInf)
    else Int (Z.sgn m * v).

Definition isNaN (n : number) : bool :=
  match n with NaN => true | _ => false end.

(** [a <= b]. *)
Definition leb (a b : number) : bool :=
  match a, b with
  | NaN, _ | _, NaN => false
  | NegInf, _ => true
  | _, PosInf => true
  | Int x, Int y => x <=? y
  | _, _ => false
  end.

(** [a > b]. *)
Definition gtb (a b : number) : bool :=
  match a, b with
  | NaN, _ | _, NaN => false
  | PosInf, PosInf => false
  | PosInf, _ => true
  | _, NegInf => match a with NegInf => false | _ => true end
  | Int x, Int y => y <? x
  | _, _ => false
  end.

(** [a + b]. *)
Definition add (a b : number) : number :=
  match a, b with
  | NaN, _ | _, NaN => NaN
  | PosInf, NegInf | NegInf, PosInf => NaN
  | PosInf, _ | _, PosInf => PosInf
  | NegInf, _ | _, NegInf => NegInf
  | Int x, Int y => round (x + y)
  end.

(** [a - b]. *)
Definition sub (a b : number) : number :=
  match a, b with
  | NaN, _ | _, NaN => NaN
  | PosInf, PosInf | NegInf, NegInf => NaN
  | PosInf, _ | _, NegInf => PosInf
  | NegInf, _ | _, PosInf => NegInf
  | Int x, Int y => round (x - y)
  end.

(** The value of a digit of the given radix, if the code unit is one. *)
Definition digitValue (radix : Z) (c : cu) : option Z :=
  let v :=
    if ((48 <=? c) && (c <=? 57))%N then Some (Z.of_N c - 48)
    else if ((97 <=? c) && (c <=? 122))%N then Some (Z.of_N c - 87)
    else if ((65 <=? c) && (c <=? 90))%N then Some (Z.of_N c - 55)
    else None in
  match v with
  | Some d => if d <? radix then Some d else None
  | None => None
  end.

(** The digits at the head of a string, up to the first code unit that is
    no digit. *)
Fixpoint takeDigits (radix : Z) (s : jsstring) : list Z :=
  match s with
  | [] => []
  | c :: s' =>
      match digitValue radix c with
      | Some d => d :: takeDigits radix s'
      | None => []
      end
  end.

Definition digitsValue (radix : Z) (ds : list Z) : Z :=
  fold_left (fun acc d => acc * radix + d) ds 0.

Definition PLUS : cu := 43%N.

(** [parseInt(s)] without a radix. *)
Definition parseInt (s : jsstring) : number :=
  let s1 := drop_while is_space s in
  let sign := match s1 with
              | c :: _ => if (c =? DASH)%N then (-1) else 1
              | [] => 1
              end in
  let s2 := match s1 with
            | c :: rest => if (c =? DASH)%N || (c =? PLUS)%N then rest else s1
            | [] => s1
            end in
  let '(radix, s3) :=
    match s2 with
    | a :: b :: rest =>
        if (a =? 48)%N && ((b =? 120)%N || (b =? 88)%N)
        then (16, rest) else (10, s2)
    | _ => (10, s2)
    end in
  match takeDigits radix s3 with
  | [] => NaN
  | ds => round (sign * digitsValue radix ds)
  end.

(** What a computation that may throw a [RangeError] gives. *)
Inductive result (A : Type) :=
| Ok (a : A)
| RangeError.

Arguments Ok {A} a.
Arguments RangeError {A}.

(** [ToLength] of a number. *)
Definition toLength (n : number) : Z :=
  match n with
  | NaN | NegInf => 0
  | PosInf => 2 ^ 53 - 1
  | Int z => Z.max 0 (Z.min z (2 ^ 53 - 1))
  end.

(** [Array.from({ length: len }, (_, i) => first + i)]: an array cannot
    have more than [2^32 - 1] elements. *)
Definition arrayFrom (len first : number) : result (list number) :=
  let l := toLength len in
  if 2 ^ 32 - 1 <? l then RangeError
  else Ok (map (fun i => add first (Int (Z.of_nat i))) (seq 0 (Z.to_nat l))).

End JsNumber.

(* ================================================================== *)
(** ** lineUtils: parseLineNumbers                                    *)
(* ================================================================== *)

Module LineUtils.
Import JsNumber.

Definition COMMA : cu := 44%N.

(** [\d]. *)
Definition isDigit (c : cu) : bool := ((48 <=? c) && (c <=? 57))%N.

(** [[,\s]]. *)
Definition isSeparator (c : cu) : bool := (c =? COMMA)%N || is_space c.

(** [[\d,\s-]]. *)
Definition isAllowed (c : cu) : bool :=
  isDigit c || (c =? COMMA)%N || is_space c || (c =? DASH)%N.

(** [input.split(/[,\s]+/)]: the pieces between the longest runs of
    separators; [inRun] tells that the code unit before was one. *)
Fixpoint splitRuns (s : jsstring) (cur : jsstring) (inRun : bool)
  : list jsstring :=
  match s with
  | [] => [cur]
  | c :: s' =>
      if isSeparator c then
        if inRun then splitRuns s' cur true
        else cur :: splitRuns s' [] true
      else splitRuns s' (cur ++ [c]) false
  end.

(** The callback given to [flatMap]: an array of numbers for a range, a
    single number otherwise. *)
Definition expandPart (part : jsstring) : result (list number) :=
  let whole := Ok [parseInt part] in
  match splitOn [DASH] (trim part) with
  | [first; last] =>
      let start := parseInt first in
      let end_ := parseInt last in
      if negb (isNaN start) && negb (isNaN end_) && leb start end_ then
        arrayFrom (add (sub end_ start) (Int 1)) start
      else whole
  | _ => whole
  end.

(** [parts.flatMap(...)]: the first throw ends it. *)
Fixpoint flatMapParts (parts : list jsstring) : result (list number) :=
  match parts with
  | [] => Ok []
  | part :: rest =>
      match expandPart part with
      | Ok ns =>
          match flatMapParts rest with
          | Ok ms => Ok (ns ++ ms)
          | RangeError => RangeError
          end
      | RangeError => RangeError
      end
  end.

(** The callback given to [filter]. *)
Definition isLineNumber (n : number) : bool :=
  negb (isNaN n) && gtb n (Int 0).

Definition parseLineNumbers (input : jsstring) : result (list number) :=
  match trim input with
  | [] => Ok []
  | _ =>
      if negb (forallb isAllowed input) then Ok []
      else
        match flatMapParts (splitRuns input [] false) with
        | Ok ns => Ok (filter isLineNumber ns)
        | RangeError => RangeError
        end
  end.

End LineUtils.

(** *** Vocabulary for line numbers *)

(** The code units of the decimal digits of a list of digit values. *)
Definition digitChars (ds : list Z) : jsstring :=
  map (fun d => N.of_nat (Z.to_nat d + 48)) ds.

(** The decimal digits of a natural number, most significant first;
    [fuel] bounds the number of digits. *)
Fixpoint decimalDigits (fuel : nat) (n : Z) : list Z :=
  match fuel with
  | O => []
  | S fuel' =>
      if n <? 10 then [n]
      else decimalDigits fuel' (n / 10) ++ [n mod 10]
  end.

(** The decimal numeral of a natural number, which is how a number below
    [10^21] that holds a natural is turned into a string. *)
Definition decimal (n : Z) : jsstring :=
  digitChars (decimalDigits (S (Z.to_nat (Z.log2 n))) n).

(** What two runs of [parseLineNumbers] give, one after the other. *)
Definition appendResults (a b : JsNumber.result (list JsNumber.number))
  : JsNumber.result (list JsNumber.number) :=
  match a, b with
  | JsNumber.Ok x, JsNumber.Ok y => JsNumber.Ok (x ++ y)
  | _, _ => JsNumber.RangeError
  end.

(** The integers from [a] up to [b]. *)
Definition lineRange (a b : Z) : list Z :=
  map (fun i => a + Z.of_nat i) (seq 0 (Z.to_nat (b - a + 1))).

(* ================================================================== *)
(** ** workshopService: the workshops kept in local storage           *)
(* ================================================================== *)

Module WorkshopService.

(** [a === b] on strings. *)
Fixpoint sameString (a b : jsstring) : bool :=
  match a, b with
  | [], [] => true
  | x :: a', y :: b' => (x =? y)%N && sameString a' b'
  | _, _ => false
  end.

Section Storage.

(** The workshops are data to this module; only their [id] is read. *)
Variable Workshop : Type.
Variable id : Workshop -> jsstring.

(** [JSON.stringify] and [JSON.parse] on lists of workshops; [None] is a
    [SyntaxError]. *)
Variable stringify : list Workshop -> jsstring.
Variable parseJson : jsstring -> option (list Workshop).

(** Whether [localStorage.setItem] accepts a value or throws for lack of
    room. *)
Variable accepts : jsstring -> bool.

(** What local storage holds under [STORAGE_KEY]: [None] for [null]. *)
Definition Storage := option jsstring.

(** What a function that writes gives: the new storage, or the [Error]
    it throws. *)
Inductive outcome :=
| Stored (storage : Storage)
| Failed (message : jsstring).

Definition getWorkshops (storage : Storage) : list Workshop :=
  match storage with
  | None => []
  | Some [] => []
  | Some data =>
      match parseJson data with
      | Some workshops => workshops
      | None => []
      end
  end.

Definition getWorkshopById (storage : Storage) (i : jsstring)
  : option Workshop :=
  find (fun w => sameString (id w) i) (getWorkshops storage).

(** [workshops[index] = workshop] at the first index [findIndex] gives,
    [workshops.push(workshop)] when it gives [-1]. *)
Fixpoint put (workshops : list Workshop) (workshop : Workshop)
  : list Workshop :=
  match workshops with
  | [] => [workshop]
  | w :: rest =>
      if sameString (id w) (id workshop) then workshop :: rest
      else w :: put rest workshop
  end.

Definition setItem (value : jsstring) (failure : jsstring) : outcome :=
  if accepts value then Stored (Some value) else Failed failure.

Definition saveWorkshop (storage : Storage) (workshop : Workshop) : outcome :=
  setItem (stringify (put (getWorkshops storage) workshop))
          (str "Failed to save workshop").

Definition deleteWorkshop (storage : Storage) (i : jsstring) : outcome :=
  setItem (stringify
             (filter (fun w => negb (sameString (id w) i))
                     (getWorkshops storage)))
          (str "Failed to delete workshop").

End Storage.

End WorkshopService.

(* ================================================================== *)
(** ** WorkshopEditor: moving a step                                  *)
(* ================================================================== *)

Module WorkshopEditor.

Section Steps.

Variable Step : Type.

(** Where [splice] starts for a start argument and an array length. *)
Definition spliceStart (start len : Z) : Z :=
  if start <? 0 then Z.max (len + start) 0 else Z.min start len.

(** [steps.splice(start, 1)]: the elements removed and the array left. *)
Definition spliceOut (steps : list (option Step)) (start : Z)
  : list (option Step) * list (option Step) :=
  let k := Z.to_nat (spliceStart start (Z.of_nat (List.length steps))) in
  (firstn 1 (skipn k steps), firstn k steps ++ skipn (S k) steps).

(** [steps.splice(start, 0, item)]. *)
Definition spliceIn (steps : list (option Step)) (start : Z)
           (item : option Step) : list (option Step) :=
  let k := Z.to_nat (spliceStart start (Z.of_nat (List.length steps))) in
  firstn k steps ++ item :: skipn k steps.

(** [handleMoveStep]: the steps and the selected index after the call.
    [rendered] is the number of steps of the workshop the handler was
    made for, [steps] the steps the state update receives.  An array
    element is [None] where it is [undefined]. *)
Definition handleMoveStep (rendered : Z) (steps : list (option Step))
           (selected fromIndex toIndex : Z) : list (option Step) * Z :=
  if (toIndex <? 0) || (toIndex >=? rendered) then (steps, selected)
  else
    let '(removedItems, rest) := spliceOut steps fromIndex in
    let removed := match removedItems with
                   | x :: _ => x
                   | [] => None
                   end in
    (spliceIn rest toIndex removed, toIndex).

End Steps.

End WorkshopEditor.

(* ================================================================== *)
(** ** The scan, line by line                                         *)
(* ================================================================== *)

Lemma step_regions st line index :
  regions (step st line index) =
  regions st ++ regions (step (mkState [] (currentStart st) (currentTitle st)
                                       (currentDescription st)) line index)
  /\ currentStart (step st line index) =
     currentStart (step (mkState [] (currentStart st) (currentTitle st)
                                 (currentDescription st)) line index)
  /\ currentTitle (step st line index) =
     currentTitle (step (mkState [] (currentStart st) (currentTitle st)
                                 (currentDescription st)) line index)
  /\ currentDescription (step st line index) =
     currentDescription (step (mkState [] (currentStart st) (currentTitle st)
                                       (currentDescription st)) line index).
Proof.
  destruct st as [rs cs t d]; unfold step; simpl.
  destruct (includes line BEGIN_MARKER); simpl.
  - now rewrite app_nil_r.
  - destruct (includes line END_MARKER); destruct cs; simpl;
      now rewrite ?app_nil_r.
Qed.

Lemma forEach_regions lines : forall index st,
  regions (forEach lines index st) =
  regions st ++ emit lines index (currentStart st) (currentTitle st)
                     (currentDescription st).
Proof.
  unfold emit.
  induction lines as [|l ls IH]; intros index st; simpl.
  - now rewrite app_nil_r.
  - rewrite IH.
    rewrite (IH _ (step (mkState _ _ _ _) l index)).
    destruct (step_regions st l index) as (Hr & Hs & Ht & Hd).
    rewrite Hr, Hs, Ht, Hd, app_assoc. reflexivity.
Qed.

Lemma emit_nil index cs t d : emit [] index cs t d = [].
Proof. reflexivity. Qed.

Lemma emit_begin l ls index cs t d :
  lineKind l = KBegin ->
  emit (l :: ls) index cs t d =
  emit ls (index + 1) (Some (index + 1)) (fst (heading l)) (snd (heading l)).
Proof.
  unfold lineKind; intros H. unfold emit at 1; simpl.
  rewrite forEach_regions. unfold step.
  destruct (includes l BEGIN_MARKER); [reflexivity|].
  destruct (includes l END_MARKER); discriminate.
Qed.

Lemma emit_end_open l ls index s t d :
  lineKind l = KEnd ->
  emit (l :: ls) index (Some s) t d =
  mkRegion s index d t :: emit ls (index + 1) None [] [].
Proof.
  unfold lineKind; intros H. unfold emit at 1; simpl.
  rewrite forEach_regions. unfold step.
  destruct (includes l BEGIN_MARKER); [discriminate|].
  destruct (includes l END_MARKER); [reflexivity|discriminate].
Qed.

Lemma emit_end_closed l ls index t d :
  lineKind l = KEnd ->
  emit (l :: ls) index None t d = emit ls (index + 1) None t d.
Proof.
  unfold lineKind, emit; intros H; simpl.
  unfold step.
  destruct (includes l BEGIN_MARKER); [discriminate|].
  destruct (includes l END_MARKER); reflexivity.
Qed.

Lemma emit_other l ls index cs t d :
  lineKind l = KOther ->
  emit (l :: ls) index cs t d = emit ls (index + 1) cs t d.
Proof.
  unfold lineKind, emit; intros H; simpl.
  unfold step.
  destruct (includes l BEGIN_MARKER); [discriminate|].
  destruct (includes l END_MARKER); [discriminate|].
  destruct cs; reflexivity.
Qed.

Lemma parse_emit code : parse code = emit (split_lines code) 0 None [] [].
Proof. reflexivity. Qed.


Lemma forEach_app l1 : forall l2 index st,
  forEach (l1 ++ l2) index st =
  forEach l2 (index + Z.of_nat (List.length l1)) (forEach l1 index st).
Proof.
  induction l1 as [|l ls IH]; intros l2 index st.
  - simpl. now rewrite Z.add_0_r.
  - cbn [app forEach List.length]. rewrite IH. f_equal. lia.
Qed.

(** Lines without an end marker close nothing. *)
Lemma emit_no_end ls : forall index cs t d,
  Forall (fun l => lineKind l <> KEnd) ls ->
  emit ls index cs t d = [].
Proof.
  induction ls as [|l ls IH]; intros index cs t d H; [reflexivity|].
  inversion H as [|? ? Hl Hls]; subst.
  destruct (lineKind l) eqn:K; [| contradiction |].
  - rewrite (emit_begin _ _ _ _ _ _ K). now apply IH.
  - rewrite (emit_other _ _ _ _ _ _ K). now apply IH.
Qed.

(** Every emitted region starts at the open start or after the index. *)
Lemma emit_lower ls : forall index cs t d lo,
  (forall s, cs = Some s -> lo <= s) ->
  lo <= index + 1 ->
  Forall (fun r => lo <= start r) (emit ls index cs t d).
Proof.
  induction ls as [|l ls IH]; intros index cs t d lo Hcs Hlo.
  - constructor.
  - destruct (lineKind l) eqn:K.
    + rewrite (emit_begin _ _ _ _ _ _ K). apply IH; [|lia].
      intros s [= <-]. exact Hlo.
    + destruct cs as [s|].
      * rewrite (emit_end_open _ _ _ _ _ _ K). constructor.
        -- simpl. now apply Hcs.
        -- apply IH; [discriminate | lia].
      * rewrite (emit_end_closed _ _ _ _ _ K). apply IH; [discriminate | lia].
    + rewrite (emit_other _ _ _ _ _ _ K). apply IH; [exact Hcs | lia].
Qed.

(** Every emitted region is non-empty, starts at line 1 or later and ends
    before the last index scanned. *)
Lemma emit_bounds ls : forall index cs t d,
  0 <= index ->
  (forall s, cs = Some s -> 1 <= s <= index) ->
  Forall (fun r => 1 <= start r <= end_ r
                   /\ end_ r < index + Z.of_nat (List.length ls))
         (emit ls index cs t d).
Proof.
  induction ls as [|l ls IH]; intros index cs t d Hi Hcs.
  - constructor.
  - assert (Hlen : (index + 1) + Z.of_nat (List.length ls)
                   = index + Z.of_nat (List.length (l :: ls)))
      by (cbn [List.length]; lia).
    rewrite <- Hlen.
    destruct (lineKind l) eqn:K.
    + rewrite (emit_begin _ _ _ _ _ _ K). apply IH; [lia|].
      intros s [= <-]. lia.
    + destruct cs as [s|].
      * rewrite (emit_end_open _ _ _ _ _ _ K). constructor.
        -- simpl. specialize (Hcs s eq_refl). lia.
        -- apply IH; [lia | discriminate].
      * rewrite (emit_end_closed _ _ _ _ _ K). apply IH; [lia | discriminate].
    + rewrite (emit_other _ _ _ _ _ _ K). apply IH; [lia|].
      intros s Hs. specialize (Hcs s Hs). lia.
Qed.

(** Each emitted region ends before every later one starts. *)
Lemma emit_sorted ls : forall index cs t d,
  (forall s, cs = Some s -> s <= index) ->
  StronglySorted before (emit ls index cs t d).
Proof.
  induction ls as [|l ls IH]; intros index cs t d Hcs.
  - constructor.
  - destruct (lineKind l) eqn:K.
    + rewrite (emit_begin _ _ _ _ _ _ K). apply IH.
      intros s [= <-]. lia.
    + destruct cs as [s|].
      * rewrite (emit_end_open _ _ _ _ _ _ K). constructor.
        -- apply IH. discriminate.
        -- assert (Hlo : Forall (fun r => index + 1 <= start r)
                                (emit ls (index + 1) None [] []))
             by (apply emit_lower; [discriminate | lia]).
           revert Hlo. apply Forall_impl.
           intros r Hr. unfold before; simpl. lia.
      * rewrite (emit_end_closed _ _ _ _ _ K). apply IH. discriminate.
    + rewrite (emit_other _ _ _ _ _ _ K). apply IH.
      intros s Hs. specialize (Hcs s Hs). lia.
Qed.

Lemma sentinels_cons l ls :
  sentinels (l :: ls) =
  if isSentinel (lineKind l) then lineKind l :: sentinels ls else sentinels ls.
Proof. reflexivity. Qed.

(** On correctly paired sentinels the scan emits one region per pair: it
    starts at the begin line's number and ends at the line before the end
    line, with the heading of its begin line. *)
Lemma emit_paired ls : forall index cs t d n,
  sentinels ls = openEnd cs ++ pairs n ->
  map start (emit ls index cs t d)
  = openStart cs ++ numbered KBegin ls (index + 1)
  /\ map end_ (emit ls index cs t d)
     = map Z.pred (numbered KEnd ls (index + 1))
  /\ map (fun r => (title r, description r)) (emit ls index cs t d)
     = openHeading cs t d ++ map heading (beginLines ls)
  /\ List.length (emit ls index cs t d) = (List.length (openEnd cs) + n)%nat.
Proof.
  induction ls as [|l ls IH]; intros index cs t d n H.
  - destruct cs; simpl in H.
    + discriminate.
    + destruct n; [|discriminate]. now rewrite emit_nil.
  - rewrite sentinels_cons in H. unfold beginLines.
    cbn [numbered filter]. fold (beginLines ls).
    destruct (lineKind l) eqn:K; cbn [isSentinel kind_eqb negb] in H |- *.
    + rewrite (emit_begin _ _ _ _ _ _ K).
      destruct cs as [s|]; [discriminate|].
      destruct n as [|n]; [discriminate|].
      cbn [openEnd pairs app] in H. injection H as H.
      destruct (IH (index + 1) (Some (index + 1)) (fst (heading l))
                   (snd (heading l)) n H) as (Hs & He & Hh & Hl).
      rewrite Hs, He, Hh, Hl. cbn [openStart openHeading openEnd app map List.length].
      rewrite <- surjective_pairing. repeat split; lia.
    + destruct cs as [s|].
      * rewrite (emit_end_open _ _ _ _ _ _ K).
        cbn [openEnd app] in H. injection H as H.
        destruct (IH (index + 1) None [] [] n H) as (Hs & He & Hh & Hl).
        cbn [map List.length]. rewrite Hs, He, Hh, Hl.
        cbn [openStart openHeading openEnd app map List.length title description
             start end_].
        replace (Z.pred (index + 1)) with index by lia.
        repeat split.
      * destruct n; discriminate.
    + rewrite (emit_other _ _ _ _ _ _ K). now apply IH.
Qed.

Lemma numbered_length_sentinels k ls : forall n,
  isSentinel k = true ->
  List.length (numbered k ls n)
  = List.length (filter (kind_eqb k) (sentinels ls)).
Proof.
  induction ls as [|l ls IH]; intros n Hk; [reflexivity|].
  rewrite sentinels_cons. cbn [numbered].
  destruct (lineKind l), k; try discriminate; cbn; rewrite ?IH; auto.
Qed.

Lemma split_lines_nonempty code : split_lines code <> [].
Proof.
  destruct code as [|c s]; simpl; [discriminate|].
  destruct (c =? LF)%N; [discriminate|].
  destruct (split_lines s); discriminate.
Qed.

Lemma lineCount_pos code : 1 <= lineCount code.
Proof.
  unfold lineCount. pose proof (split_lines_nonempty code).
  destruct (split_lines code); [contradiction|]. cbn [List.length]. lia.
Qed.

Lemma parse_bounds code :
  Forall (fun r => 1 <= start r <= end_ r /\ end_ r < lineCount code)
         (parse code).
Proof.
  rewrite parse_emit. unfold lineCount.
  apply (emit_bounds (split_lines code) 0 None [] []); [lia | discriminate].
Qed.

Lemma parse_sorted code : StronglySorted before (parse code).
Proof. rewrite parse_emit. apply emit_sorted. discriminate. Qed.

Lemma StronglySorted_nth {A} (R : A -> A -> Prop) (l : list A) :
  StronglySorted R l ->
  forall i j a b, (i < j)%nat ->
  nth_error l i = Some a -> nth_error l j = Some b -> R a b.
Proof.
  induction 1 as [|x l Hs IH Hall]; intros i j a b Hij Ha Hb.
  - destruct i; discriminate.
  - destruct j as [|j]; [lia|]. simpl in Hb.
    destruct i as [|i]; simpl in Ha.
    + injection Ha as <-. rewrite Forall_forall in Hall.
      apply Hall. eapply nth_error_In; eauto.
    + apply (IH i j); auto; lia.
Qed.

Lemma sorted_by_start rs :
  StronglySorted before rs ->
  Forall (fun r => start r <= end_ r) rs ->
  StronglySorted (fun a b => start a < start b) rs.
Proof.
  induction 1 as [|r rs Hs IH Hall]; intros Hb; constructor.
  - apply IH. now inversion Hb.
  - inversion Hb as [|? ? Hr Hrs]; subst.
    revert Hall. apply Forall_impl. unfold before. intros b Hlt. lia.
Qed.

(** *** The scan of the editing view is the same scan *)

Lemma editing_forEach lines : forall index st st',
  CodeEditingView.regions st' = map bare (regions st) ->
  CodeEditingView.currentStart st' = currentStart st ->
  CodeEditingView.regions (CodeEditingView.forEach lines index st')
  = map bare (regions (forEach lines index st)).
Proof.
  induction lines as [|l ls IH]; intros index st st' Hr Hc; [exact Hr|].
  destruct st as [rs cs t d], st' as [rs' cs']; simpl in Hr, Hc; subst.
  simpl. apply IH; unfold step, CodeEditingView.step;
    change CodeEditingView.BEGIN_MARKER with BEGIN_MARKER;
    change CodeEditingView.END_MARKER with END_MARKER;
    destruct (includes l BEGIN_MARKER); simpl; auto;
    destruct (includes l END_MARKER), cs; simpl; auto.
  now rewrite map_app.
Qed.

Lemma editing_parse code :
  CodeEditingView.parse code = map bare (parse code).
Proof.
  unfold CodeEditingView.parse, parse, parseLines.
  now apply editing_forEach.
Qed.

(* ================================================================== *)
(** ** The region parser                                              *)
(* ================================================================== *)

(** C1 (as the code behaves).  For a text whose line 2 is
    [// @editable-begin Title - Desc], whose line 6 is [// @editable-end]
    and whose other lines hold no marker, [parse] returns exactly one region,
    titled "Title" and described "Desc", ending at line 5, the line before
    the end marker; its start is 2, the line of the begin marker itself, not
    line 3. *)
Theorem parse_scenario1 code l1 l3 l4 l5 rest :
  split_lines code
  = l1 :: str "// @editable-begin Title - Desc" :: l3 :: l4 :: l5
       :: str "// @editable-end" :: rest ->
  Forall (fun l => lineKind l = KOther) (l1 :: l3 :: l4 :: l5 :: rest) ->
  parse code = [ {| start := 2; end_ := 5;
                    description := str "Desc"; title := str "Title" |} ].
Proof.
  intros Hsplit Hother.
  inversion Hother as [|? ? K1 H1]; subst.
  inversion H1 as [|? ? K3 H3]; subst.
  inversion H3 as [|? ? K4 H4]; subst.
  inversion H4 as [|? ? K5 Hrest]; subst.
  rewrite parse_emit, Hsplit.
  rewrite (emit_other _ _ _ _ _ _ K1).
  rewrite emit_begin by (vm_compute; reflexivity).
  rewrite (emit_other _ _ _ _ _ _ K3), (emit_other _ _ _ _ _ _ K4),
          (emit_other _ _ _ _ _ _ K5).
  rewrite emit_end_open by (vm_compute; reflexivity).
  rewrite emit_no_end.
  - vm_compute. reflexivity.
  - revert Hrest. apply Forall_impl. intros l ->. discriminate.
Qed.

Lemma parse_scenario1_witness :
  parse scenario1 = [ {| start := 2; end_ := 5;
                         description := str "Desc"; title := str "Title" |} ].
Proof.
  apply (parse_scenario1 scenario1
           (str "module playground::demo {")
           (str "const A: u64 = 1;") (str "const B: u64 = 2;")
           (str "const C: u64 = 3;") [str "}"]).
  - vm_compute. reflexivity.
  - repeat constructor.
Defined.

(** C3.  A text with [n] correctly paired begin/end blocks and no other
    marker gives exactly [n] regions; each has [1 <= start <= end] within
    the line count; the starts are the line numbers of the begin markers in
    text order, the ends the lines before the end markers, the headings
    those of the begin lines; the list ascends strictly by start line. *)
Theorem parse_paired code n :
  sentinels (split_lines code) = pairs n ->
  List.length (parse code) = n
  /\ Forall (fun r => 1 <= start r <= end_ r /\ end_ r <= lineCount code)
            (parse code)
  /\ map start (parse code) = numbered KBegin (split_lines code) 1
  /\ map end_ (parse code) = map Z.pred (numbered KEnd (split_lines code) 1)
  /\ map (fun r => (title r, description r)) (parse code)
     = map heading (beginLines (split_lines code))
  /\ StronglySorted (fun a b => start a < start b) (parse code).
Proof.
  intros H.
  destruct (emit_paired (split_lines code) 0 None [] [] n H)
    as (Hs & He & Hh & Hl).
  rewrite parse_emit.
  repeat split; try assumption.
  - rewrite <- parse_emit. pose proof (parse_bounds code) as Hb.
    revert Hb. apply Forall_impl. intros r Hr. lia.
  - rewrite <- parse_emit. apply sorted_by_start; [apply parse_sorted|].
    pose proof (parse_bounds code) as Hb.
    revert Hb. apply Forall_impl. intros r Hr. lia.
Qed.

(** C6.  When the text holds a begin marker with no end marker after it,
    [parse] returns what the lines before that begin marker give on their
    own and nothing for the unterminated begin: every region ends before
    its line; when the lines before it hold [n] correctly paired blocks,
    the result is exactly their [n] regions. *)
Theorem parse_unterminated code ls1 bl ls2 :
  split_lines code = ls1 ++ bl :: ls2 ->
  lineKind bl = KBegin ->
  Forall (fun l => lineKind l <> KEnd) ls2 ->
  parse code = parseLines ls1
  /\ Forall (fun r => end_ r < Z.of_nat (List.length ls1)) (parse code)
  /\ forall n, sentinels ls1 = pairs n ->
       List.length (parse code) = n
       /\ map start (parse code) = numbered KBegin ls1 1
       /\ map end_ (parse code) = map Z.pred (numbered KEnd ls1 1).
Proof.
  intros Hsplit Hb Hno.
  assert (Heq : parse code = parseLines ls1).
  { unfold parse, parseLines. rewrite Hsplit, forEach_app, forEach_regions.
    rewrite emit_no_end; [apply app_nil_r|].
    constructor; [rewrite Hb; discriminate | exact Hno]. }
  rewrite Heq. split; [reflexivity|]. split.
  - pose proof (emit_bounds ls1 0 None [] []) as Hbd.
    unfold parseLines. change (forEach ls1 0 initial)
      with (forEach ls1 0 (mkState [] None [] [])).
    fold (emit ls1 0 None [] []).
    assert (Hall := Hbd (Z.le_refl 0) ltac:(discriminate)).
    revert Hall. apply Forall_impl. intros r Hr. lia.
  - intros n Hn.
    destruct (emit_paired ls1 0 None [] [] n Hn) as (Hs & He & _ & Hl).
    unfold parseLines. change (forEach ls1 0 initial)
      with (forEach ls1 0 (mkState [] None [] [])).
    fold (emit ls1 0 None [] []). auto.
Qed.

Lemma parse_paired_witness :
  sentinels (split_lines twoBlocks) = pairs 2
  /\ List.length (parse twoBlocks) = 2%nat
  /\ map start (parse twoBlocks) = [2; 5]
  /\ map end_ (parse twoBlocks) = [3; 5].
Proof.
  assert (H : sentinels (split_lines twoBlocks) = pairs 2)
    by (vm_compute; reflexivity).
  destruct (parse_paired twoBlocks 2 H) as (Hl & _ & Hs & He & _).
  split; [exact H|]. split; [exact Hl|]. split.
  - rewrite Hs. vm_compute. reflexivity.
  - rewrite He. vm_compute. reflexivity.
Defined.

Lemma parse_unterminated_witness :
  parse unterminated = parseLines (firstn 4 (split_lines unterminated))
  /\ List.length (parse unterminated) = 1%nat.
Proof.
  destruct (parse_unterminated unterminated
              (firstn 4 (split_lines unterminated))
              (str "// @editable-begin Dangling - never closed")
              [str "c"; str "d"])
    as (Heq & _ & Hn).
  - vm_compute. reflexivity.
  - vm_compute. reflexivity.
  - repeat constructor; vm_compute; discriminate.
  - split; [exact Heq|].
    apply (Hn 1%nat). vm_compute. reflexivity.
Defined.

Lemma sorted_disjoint rs :
  StronglySorted before rs ->
  Forall (fun r => start r <= end_ r) rs ->
  forall i j r1 r2 l,
    i <> j ->
    nth_error rs i = Some r1 -> nth_error rs j = Some r2 ->
    inRegion l r1 -> ~ inRegion l r2.
Proof.
  intros Hs Hb i j r1 r2 l Hij H1 H2 [L1 U1] [L2 U2].
  destruct (Nat.lt_total i j) as [Hlt|[Heq|Hgt]]; [| contradiction |].
  - pose proof (StronglySorted_nth _ _ Hs i j r1 r2 Hlt H1 H2) as Hlt'.
    unfold before in Hlt'. lia.
  - pose proof (StronglySorted_nth _ _ Hs j i r2 r1 Hgt H2 H1) as Hlt'.
    unfold before in Hlt'. lia.
Qed.

(** C10.  Whatever the text, nested and stray markers included, the regions
    [parse] returns are strictly ordered: each region ends before the next
    one starts, so no line lies in two regions.  The same holds for the scan
    of the editing view. *)
Theorem parse_regions_disjoint code :
  (forall i r1 r2,
      nth_error (parse code) i = Some r1 ->
      nth_error (parse code) (S i) = Some r2 ->
      end_ r1 < start r2)
  /\ (forall i j r1 r2 l,
         i <> j ->
         nth_error (parse code) i = Some r1 ->
         nth_error (parse code) j = Some r2 ->
         inRegion l r1 -> ~ inRegion l r2)
  /\ (forall i r1 r2,
         nth_error (CodeEditingView.parse code) i = Some r1 ->
         nth_error (CodeEditingView.parse code) (S i) = Some r2 ->
         CodeEditingView.end_ r1 < CodeEditingView.start r2)
  /\ (forall i j r1 r2 l,
         i <> j ->
         nth_error (CodeEditingView.parse code) i = Some r1 ->
         nth_error (CodeEditingView.parse code) j = Some r2 ->
         CodeEditingView.start r1 <= l <= CodeEditingView.end_ r1 ->
         ~ CodeEditingView.start r2 <= l <= CodeEditingView.end_ r2).
Proof.
  assert (Hb : Forall (fun r => start r <= end_ r) (parse code)).
  { pose proof (parse_bounds code) as Hb. revert Hb.
    apply Forall_impl. intros r Hr. lia. }
  assert (Hnext : forall i r1 r2,
             nth_error (parse code) i = Some r1 ->
             nth_error (parse code) (S i) = Some r2 -> end_ r1 < start r2).
  { intros i r1 r2 H1 H2.
    apply (StronglySorted_nth _ _ (parse_sorted code) i (S i) r1 r2);
      auto. }
  pose proof (sorted_disjoint _ (parse_sorted code) Hb) as Hdis.
  split; [exact Hnext|]. split; [exact Hdis|].
  rewrite editing_parse. split.
  - intros i r1 r2 H1 H2.
    rewrite nth_error_map in H1, H2.
    destruct (nth_error (parse code) i) as [a|] eqn:Ha; [|discriminate].
    destruct (nth_error (parse code) (S i)) as [b|] eqn:Hb'; [|discriminate].
    injection H1 as <-. injection H2 as <-. simpl. eauto.
  - intros i j r1 r2 l Hij H1 H2.
    rewrite nth_error_map in H1, H2.
    destruct (nth_error (parse code) i) as [a|] eqn:Ha; [|discriminate].
    destruct (nth_error (parse code) j) as [b|] eqn:Hb'; [|discriminate].
    injection H1 as <-. injection H2 as <-. simpl.
    apply (Hdis i j a b l Hij Ha Hb').
Qed.

Lemma parse_regions_disjoint_witness :
  (exists r1 r2,
      nth_error (parse nested) 0 = Some r1
      /\ nth_error (parse nested) 1 = Some r2
      /\ end_ r1 < start r2)
  /\ List.length (CodeEditingView.parse nested) = 2%nat.
Proof.
  destruct (parse_regions_disjoint nested) as (Hnext & _).
  split.
  - exists (mkRegion 3 4 (str "second") (str "Inner")),
           (mkRegion 7 8 (str "This section can be modified")
                     (str "Editable Section")).
    assert (H1 : nth_error (parse nested) 0
                 = Some (mkRegion 3 4 (str "second") (str "Inner")))
      by (vm_compute; reflexivity).
    assert (H2 : nth_error (parse nested) 1
                 = Some (mkRegion 7 8 (str "This section can be modified")
                                  (str "Editable Section")))
      by (vm_compute; reflexivity).
    split; [exact H1|]. split; [exact H2|].
    exact (Hnext 0%nat _ _ H1 H2).
  - vm_compute. reflexivity.
Defined.

(* ================================================================== *)
(** ** Validation against the document                                *)
(* ================================================================== *)

Lemma clampRegion_inside totalLines r :
  1 <= start r -> start r <= end_ r -> end_ r <= totalLines ->
  clampRegion totalLines r = r.
Proof.
  intros H1 H2 H3. destruct r as [s e d t]; simpl in *.
  unfold clampRegion; simpl. f_equal; lia.
Qed.

Lemma validatedRegions_app totalLines rs1 rs2 :
  validatedRegions totalLines (rs1 ++ rs2)
  = validatedRegions totalLines rs1 ++ validatedRegions totalLines rs2.
Proof. unfold validatedRegions. now rewrite map_app, filter_app. Qed.

Lemma validatedRegions_inside totalLines rs :
  Forall (fun r => 1 <= start r /\ start r <= end_ r /\ end_ r <= totalLines)
         rs ->
  validatedRegions totalLines rs = rs.
Proof.
  induction 1 as [|r rs (H1 & H2 & H3) Hrs IH]; [reflexivity|].
  unfold validatedRegions in *. cbn [map filter].
  rewrite clampRegion_inside by assumption.
  rewrite IH. now apply Z.leb_le in H2 as ->.
Qed.

Lemma validatedRegions_ordered totalLines rs :
  Forall (fun r => start r <= end_ r) (validatedRegions totalLines rs).
Proof.
  apply Forall_forall. intros r Hr.
  apply filter_In in Hr as [_ Hr]. now apply Z.leb_le.
Qed.

(** With an editor model at least as long as the text, validation leaves
    the parsed regions as they are. *)
Lemma validatedRegions_parse totalLines code :
  lineCount code <= totalLines ->
  validatedRegions totalLines (parse code) = parse code.
Proof.
  intros H. apply validatedRegions_inside.
  pose proof (parse_bounds code) as Hb. revert Hb.
  apply Forall_impl. intros r Hr. lia.
Qed.

(** C7.  In a document of [totalLines >= 1] lines: regions lying inside
    [1..totalLines] are kept as they are; a region starting inside the
    document and ending beyond it keeps its start and has its end cut to
    [totalLines]; a region whose clamped start exceeds its clamped end is
    dropped; and every region kept has [start <= end]. *)
Theorem clamp_to_document totalLines :
  1 <= totalLines ->
  (forall rs,
      Forall (fun r => 1 <= start r /\ start r <= end_ r
                       /\ end_ r <= totalLines) rs ->
      validatedRegions totalLines rs = rs)
  /\ (forall pre r post,
         1 <= start r <= end_ r ->
         start r <= totalLines < end_ r ->
         validatedRegions totalLines (pre ++ r :: post)
         = validatedRegions totalLines pre
             ++ {| start := start r; end_ := totalLines;
                   description := description r; title := title r |}
             :: validatedRegions totalLines post)
  /\ (forall pre r post,
         end_ (clampRegion totalLines r) < start (clampRegion totalLines r) ->
         validatedRegions totalLines (pre ++ r :: post)
         = validatedRegions totalLines pre ++ validatedRegions totalLines post)
  /\ (forall rs,
         Forall (fun r => start r <= end_ r) (validatedRegions totalLines rs)).
Proof.
  intros Ht. split; [apply validatedRegions_inside|].
  split; [|split; [|apply validatedRegions_ordered]].
  - intros pre r post Hr Hpart.
    rewrite validatedRegions_app. f_equal.
    change (r :: post) with ([r] ++ post).
    rewrite validatedRegions_app. unfold validatedRegions at 1.
    assert (Hc : clampRegion totalLines r
                 = {| start := start r; end_ := totalLines;
                      description := description r; title := title r |})
      by (unfold clampRegion; f_equal; lia).
    cbn [map filter]. rewrite Hc. cbn [start end_].
    assert (Hle : (start r <=? totalLines) = true) by (apply Z.leb_le; lia).
    rewrite Hle. reflexivity.
  - intros pre r post Hdrop.
    rewrite validatedRegions_app. f_equal.
    change (r :: post) with ([r] ++ post).
    rewrite validatedRegions_app. unfold validatedRegions at 1.
    cbn [map filter].
    assert (Hgt : (start (clampRegion totalLines r)
                   <=? end_ (clampRegion totalLines r)) = false)
      by (apply Z.leb_gt; exact Hdrop).
    rewrite Hgt. reflexivity.
Qed.

Lemma clamp_to_document_witness :
  validatedRegions 4 [mkRegion 1 2 [] []; mkRegion 3 4 [] []]
  = [mkRegion 1 2 [] []; mkRegion 3 4 [] []]
  /\ validatedRegions 4 [mkRegion 1 2 [] []; mkRegion 3 6 [] []]
     = [mkRegion 1 2 [] []; mkRegion 3 4 [] []]
  /\ validatedRegions 4 [mkRegion 5 2 [] []; mkRegion 3 4 [] []]
     = [mkRegion 3 4 [] []].
Proof.
  destruct (clamp_to_document 4 ltac:(lia)) as (Hid & Hcut & Hdrop & _).
  split; [|split].
  - apply Hid. repeat constructor; simpl; lia.
  - apply (Hcut [mkRegion 1 2 [] []] (mkRegion 3 6 [] []) []); simpl; lia.
  - apply (Hdrop [] (mkRegion 5 2 [] []) [mkRegion 3 4 [] []]). simpl. lia.
Defined.

(* ================================================================== *)
(** ** The edit guard                                                 *)
(* ================================================================== *)

Lemma isPositionEditable_iff validated position :
  isPositionEditable validated position = true
  <-> exists r, In r validated /\ inRegion (lineNumber position) r.
Proof.
  unfold isPositionEditable, inRegion. rewrite existsb_exists.
  split; intros (r & Hin & H); exists r; split; auto.
  - apply andb_true_iff in H as [H1 H2].
    apply Z.geb_le in H1. apply Z.leb_le in H2. lia.
  - apply andb_true_iff. split; [apply Z.geb_le | apply Z.leb_le]; lia.
Qed.

Lemma isPositionEditable_false_iff validated position :
  isPositionEditable validated position = false
  <-> forall r, In r validated -> ~ inRegion (lineNumber position) r.
Proof.
  rewrite <- not_true_iff_false, isPositionEditable_iff.
  split.
  - intros H r Hin Hr. apply H. now exists r.
  - intros H (r & Hin & Hr). now apply (H r).
Qed.

Lemma selectionEditable_range validated selection :
  isEmpty selection = false ->
  selectionEditable validated selection = true
  <-> exists r, In r validated
                /\ start r <= startLineNumber (range selection)
                /\ endLineNumber (range selection) <= end_ r.
Proof.
  intros Hne. unfold selectionEditable. rewrite Hne, existsb_exists.
  split; intros (r & Hin & H); exists r; split; auto.
  - apply andb_true_iff in H as [H1 H2].
    apply Z.geb_le in H1. apply Z.leb_le in H2. lia.
  - apply andb_true_iff. split; [apply Z.geb_le | apply Z.leb_le]; lia.
Qed.

Lemma isEditAllowed_single validated selection :
  isEditAllowed validated [selection] = selectionEditable validated selection.
Proof. unfold isEditAllowed. simpl. apply andb_true_r. Qed.

(** C2.  For a non-empty selection over lines [a..b], the guard allows the
    edit if and only if one region has [start <= a] and [b <= end]; so an
    editing key is let through exactly then, a selection over lines 4 to 7
    is refused when the only region covers lines 3 to 5, a range touching a
    line of no region is refused, and so is a range whose first and last
    lines lie in two different parsed regions. *)
Theorem range_editable validated selection :
  isEmpty selection = false ->
  let a := startLineNumber (range selection) in
  let b := endLineNumber (range selection) in
  (isEditAllowed validated [selection] = true
   <-> exists r, In r validated /\ start r <= a /\ b <= end_ r)
  /\ (forall e, isEditingKey e = true ->
        (onKeyDown validated (Some [selection]) e = false
         <-> exists r, In r validated /\ start r <= a /\ b <= end_ r))
  /\ (forall r, validated = [r] -> start r = 3 -> end_ r = 5 ->
        a = 4 -> b = 7 ->
        isEditAllowed validated [selection] = false)
  /\ (forall l, a <= l <= b ->
        (forall r, In r validated -> ~ inRegion l r) ->
        isEditAllowed validated [selection] = false)
  /\ (forall code totalLines i j r1 r2,
        a <= b ->
        lineCount code <= totalLines ->
        validated = validatedRegions totalLines (parse code) ->
        i <> j ->
        nth_error (parse code) i = Some r1 ->
        nth_error (parse code) j = Some r2 ->
        inRegion a r1 -> inRegion b r2 ->
        isEditAllowed validated [selection] = false).
Proof.
  intros Hne a b.
  pose proof (selectionEditable_range validated selection Hne) as Hiff.
  fold a b in Hiff. rewrite isEditAllowed_single.
  split; [exact Hiff|]. split; [|split; [|split]].
  - intros e He. unfold onKeyDown. rewrite isEditAllowed_single, He.
    rewrite <- Hiff.
    destruct (selectionEditable validated selection); simpl; split;
      congruence.
  - intros r -> Hs He Ha Hb. apply not_true_iff_false.
    rewrite Hiff. intros (r' & [<-|[]] & H1 & H2). lia.
  - intros l Hl Hout. apply not_true_iff_false.
    rewrite Hiff. intros (r & Hin & H1 & H2).
    apply (Hout r Hin). unfold inRegion. lia.
  - intros code totalLines i j r1 r2 Hab Hlen -> Hij H1 H2 Ha Hb.
    rewrite validatedRegions_parse in Hiff |- * by assumption.
    apply not_true_iff_false. rewrite Hiff.
    intros (r & Hin & Hsa & Hbe).
    apply In_nth_error in Hin as (k & Hk).
    assert (Hord : Forall (fun r => start r <= end_ r) (parse code)).
    { pose proof (parse_bounds code) as Hbd. revert Hbd.
      apply Forall_impl. intros x Hx. lia. }
    pose proof (sorted_disjoint _ (parse_sorted code) Hord) as Hdis.
    destruct (Nat.eq_dec k i) as [->|Hki].
    + apply (Hdis i j r r2 b Hij Hk H2); [unfold inRegion; lia | exact Hb].
    + apply (Hdis k i r r1 a Hki Hk H1); [unfold inRegion; lia | exact Ha].
Qed.

Lemma range_editable_witness :
  isEditAllowed (validatedRegions 7 (parse twoBlocks))
                [mkSelection (mkRange 2 1 3 5) 3 5] = true
  /\ isEditAllowed (validatedRegions 7 (parse twoBlocks))
                   [mkSelection (mkRange 2 1 5 3) 5 3] = false
  /\ isEditAllowed [mkRegion 3 5 [] []]
                   [mkSelection (mkRange 4 1 7 2) 7 2] = false.
Proof.
  split; [|split].
  - apply (range_editable (validatedRegions 7 (parse twoBlocks))
             (mkSelection (mkRange 2 1 3 5) 3 5) eq_refl).
    exists (mkRegion 2 3 (str "Set the fee") (str "Fees")).
    split; [vm_compute; auto | simpl; lia].
  - apply (range_editable (validatedRegions 7 (parse twoBlocks))
             (mkSelection (mkRange 2 1 5 3) 5 3) eq_refl)
      with (code := twoBlocks) (totalLines := 7) (i := 0%nat) (j := 1%nat)
           (r1 := mkRegion 2 3 (str "Set the fee") (str "Fees"))
           (r2 := mkRegion 5 5 (str "This section can be modified")
                           (str "Editable Section"));
      try (vm_compute; reflexivity); try (simpl; lia); try discriminate;
      unfold inRegion; simpl; lia.
  - apply (range_editable [mkRegion 3 5 [] []]
             (mkSelection (mkRange 4 1 7 2) 7 2) eq_refl)
      with (r := mkRegion 3 5 [] []); reflexivity.
Defined.

(** Keys the guard tests for are blocked exactly when the edit is not
    allowed. *)
Lemma onKeyDown_editing_key validated selections e :
  isEditingKey e = true ->
  onKeyDown validated (Some selections) e
  = negb (isEditAllowed validated selections).
Proof.
  intros He. unfold onKeyDown. rewrite He.
  now destruct (isEditAllowed validated selections).
Qed.

(** X8.  With a single empty selection, a key the handler tests for
    passes exactly when the cursor's line lies in a region. *)
Lemma onKeyDown_cursor validated selection e :
  isEmpty selection = true ->
  isEditingKey e = true ->
  onKeyDown validated (Some [selection]) e = false
  <-> exists r, In r validated /\ inRegion (positionLineNumber selection) r.
Proof.
  intros Hempty He.
  rewrite onKeyDown_editing_key, isEditAllowed_single by assumption.
  unfold selectionEditable. rewrite Hempty, negb_false_iff.
  apply isPositionEditable_iff.
Qed.

(** X7.  Arrow keys and the modifier keys are never blocked, whatever
    the regions, the selections and the modifiers held. *)
Lemma onKeyDown_navigation validated selections e :
  In (keyCode e)
     [KeyCode.LeftArrow; KeyCode.UpArrow; KeyCode.RightArrow;
      KeyCode.DownArrow; KeyCode.Shift; KeyCode.Ctrl; KeyCode.Alt;
      KeyCode.Meta] ->
  onKeyDown validated selections e = false.
Proof.
  intros Hk. unfold onKeyDown.
  destruct selections as [sels|]; [|reflexivity].
  assert (He : isEditingKey e = false).
  { unfold isEditingKey. destruct e as [k c s a m]; simpl in *.
    repeat (destruct Hk as [<-|Hk]; [now destruct c, a, m|]).
    contradiction. }
  rewrite He. now destruct (negb _).
Qed.

(** C4 (as the code behaves).  The space key, a character key, is never
    blocked: with the cursor on line 1 and lines 3 to 5 as the only region
    the position is not editable, yet the handler lets the key through. *)
Theorem space_key_not_blocked :
  let space := mkKey KeyCode.Space false false false false in
  let cursor := mkSelection (mkRange 1 1 1 1) 1 1 in
  let validated := [mkRegion 3 5 [] []] in
  (forall regionList selections, onKeyDown regionList selections space = false)
  /\ isEmpty cursor = true
  /\ isPositionEditable validated (getPosition cursor) = false
  /\ isEditAllowed validated [cursor] = false
  /\ onKeyDown validated (Some [cursor]) space = false.
Proof.
  cbv zeta. split; [|repeat split].
  intros regionList [sels|]; [|reflexivity].
  unfold onKeyDown. now destruct (negb _).
Qed.

(* ================================================================== *)
(** ** The paste handler                                              *)
(* ================================================================== *)

(** C5 (amended).  After a paste the handler looks at the cursor the editor
    reports.  When that line lies in no region it issues one undo, which
    gives back the editor as it was before the paste; when it lies in some
    region the paste is kept whole; so the paste is reverted exactly when
    the cursor's line is in no region.  A paste made inside a region that
    leaves the cursor beyond that region's end is undone when the cursor's
    line is in none of the other regions, which is always so with a single
    region, and is kept when the cursor has landed in another region. *)
Theorem paste_revalidated
        (Editor : Type) (editorPosition : Editor -> option Position)
        (undo : Editor -> Editor) validated
        (beforePaste afterPaste : Editor) (p : Position) :
  undo afterPaste = beforePaste ->
  editorPosition afterPaste = Some p ->
  ((forall r, In r validated -> ~ inRegion (lineNumber p) r) ->
   onDidPaste Editor editorPosition undo validated afterPaste = beforePaste)
  /\ ((exists r, In r validated /\ inRegion (lineNumber p) r) ->
      onDidPaste Editor editorPosition undo validated afterPaste = afterPaste)
  /\ (afterPaste <> beforePaste ->
      (onDidPaste Editor editorPosition undo validated afterPaste
       = beforePaste
       <-> forall r, In r validated -> ~ inRegion (lineNumber p) r))
  /\ (forall r p0,
        In r validated ->
        inRegion (lineNumber p0) r -> end_ r < lineNumber p ->
        ((forall r', In r' validated -> r' <> r ->
                     ~ inRegion (lineNumber p) r') ->
         onDidPaste Editor editorPosition undo validated afterPaste
         = beforePaste)
        /\ ((exists r', In r' validated /\ inRegion (lineNumber p) r') ->
            onDidPaste Editor editorPosition undo validated afterPaste
            = afterPaste))
  /\ (forall r p0,
        validated = [r] ->
        inRegion (lineNumber p0) r -> end_ r < lineNumber p ->
        onDidPaste Editor editorPosition undo validated afterPaste
        = beforePaste).
Proof.
  intros Hundo Hpos.
  assert (Hout : (forall r, In r validated -> ~ inRegion (lineNumber p) r) ->
                 onDidPaste Editor editorPosition undo validated afterPaste
                 = beforePaste).
  { intros H. unfold onDidPaste. rewrite Hpos.
    apply isPositionEditable_false_iff in H. rewrite H. exact Hundo. }
  assert (Hin : (exists r, In r validated /\ inRegion (lineNumber p) r) ->
                onDidPaste Editor editorPosition undo validated afterPaste
                = afterPaste).
  { intros H. unfold onDidPaste. rewrite Hpos.
    apply isPositionEditable_iff in H. rewrite H. reflexivity. }
  split; [exact Hout|]. split; [exact Hin|]. split; [|split].
  - intros Hne. split; [|exact Hout].
    intros Hrev r Hr Hp. apply Hne. rewrite <- Hrev. symmetry.
    apply Hin. eauto.
  - intros r p0 Hr _ Hpast. split; [|exact Hin].
    intros Hothers. apply Hout. intros r' Hr' Hp.
    destruct (Z.eq_dec (end_ r') (end_ r)) as [He|He].
    + unfold inRegion in Hp. lia.
    + apply (Hothers r' Hr'); [|exact Hp]. intros ->. contradiction.
  - intros r p0 -> _ Hpast. apply Hout.
    intros r' [<-|[]] [_ Hp]. lia.
Qed.

(** Without a cursor the handler leaves the editor alone. *)
Lemma onDidPaste_no_position
      (Editor : Type) (editorPosition : Editor -> option Position)
      (undo : Editor -> Editor) validated (afterPaste : Editor) :
  editorPosition afterPaste = None ->
  onDidPaste Editor editorPosition undo validated afterPaste = afterPaste.
Proof. intros H. unfold onDidPaste. now rewrite H. Qed.

Lemma paste_revalidated_witness :
  let before := TestEditor.mk (str "a") (Some (mkPosition 3 1)) [] in
  let after := TestEditor.paste (str "b") (Some (mkPosition 6 1)) before in
  onDidPaste TestEditor.t TestEditor.cursor TestEditor.undo
             [mkRegion 3 5 [] []] after = before.
Proof.
  cbv zeta.
  destruct (paste_revalidated TestEditor.t TestEditor.cursor TestEditor.undo
              [mkRegion 3 5 [] []]
              (TestEditor.mk (str "a") (Some (mkPosition 3 1)) [])
              (TestEditor.paste (str "b") (Some (mkPosition 6 1))
                 (TestEditor.mk (str "a") (Some (mkPosition 3 1)) []))
              (mkPosition 6 1) eq_refl eq_refl)
    as (_ & _ & _ & _ & Hsingle).
  apply (Hsingle (mkRegion 3 5 [] []) (mkPosition 3 1)).
  - reflexivity.
  - unfold inRegion; simpl; lia.
  - simpl; lia.
Defined.

(** C5 as stated fails.  In [twoBlocks] the regions are lines 2 to 3 and
    line 5.  Two lines pasted at the cursor on line 3, inside the first
    region, push the cursor to line 5, past that region's end; line 5 is the
    second region, so the handler finds the position editable and keeps the
    paste, although one undo would have given the text back. *)
Lemma paste_past_region_kept :
  let validated := validatedRegions (lineCount twoBlocks) (parse twoBlocks) in
  let before := TestEditor.mk twoBlocks (Some (mkPosition 3 1)) [] in
  let after := TestEditor.paste twoBlocksPasted (Some (mkPosition 5 1))
                                before in
  (exists r, In r validated /\ inRegion 3 r /\ end_ r < 5)
  /\ TestEditor.undo after = before
  /\ after <> before
  /\ onDidPaste TestEditor.t TestEditor.cursor TestEditor.undo validated after
     = after
  /\ onDidPaste TestEditor.t TestEditor.cursor TestEditor.undo validated after
     <> before.
Proof.
  cbv zeta. split; [|split; [|split; [|split]]].
  - exists (mkRegion 2 3 (str "Set the fee") (str "Fees")).
    split; [vm_compute; auto | unfold inRegion; simpl; lia].
  - reflexivity.
  - discriminate.
  - vm_compute. reflexivity.
  - vm_compute. discriminate.
Qed.

(* ================================================================== *)
(** ** Line descriptions                                              *)
(* ================================================================== *)

Import LineDescriptions.

Lemma covers_iff l d : covers l d = true <-> In l (lines d).
Proof.
  unfold covers. rewrite existsb_exists. split.
  - intros (x & Hin & Heq). apply Z.eqb_eq in Heq. now subst.
  - intros H. exists l. split; [exact H | apply Z.eqb_refl].
Qed.

Lemma covers_false_iff l d : covers l d = false <-> ~ In l (lines d).
Proof. now rewrite <- not_true_iff_false, covers_iff. Qed.

Lemma findAt_skip l pre rest :
  Forall (fun b => ~ In l (lines b)) pre ->
  findAt l (pre ++ rest) = findAt l rest.
Proof.
  induction 1 as [|b pre Hb Hpre IH]; [reflexivity|].
  unfold findAt in *. simpl.
  apply covers_false_iff in Hb. now rewrite Hb.
Qed.

Lemma findAt_head l a rest :
  In l (lines a) -> findAt l (a :: rest) = Some a.
Proof.
  intros H. unfold findAt. simpl.
  apply covers_iff in H. now rewrite H.
Qed.

Lemma findAt_Some l anns : forall a,
  findAt l anns = Some a ->
  exists pre post,
    anns = pre ++ a :: post
    /\ In l (lines a)
    /\ Forall (fun b => ~ In l (lines b)) pre.
Proof.
  induction anns as [|x xs IH]; intros a H; [discriminate|].
  unfold findAt in H. simpl in H.
  destruct (covers l x) eqn:Hx.
  - injection H as <-. exists [], xs.
    repeat split; [now apply covers_iff | constructor].
  - destruct (IH a H) as (pre & post & -> & Hin & Hpre).
    exists (x :: pre), post. repeat split; auto.
    constructor; [now apply covers_false_iff | exact Hpre].
Qed.

Lemma findAt_None l anns :
  findAt l anns = None <-> Forall (fun b => ~ In l (lines b)) anns.
Proof.
  split.
  - induction anns as [|x xs IH]; intros H; [constructor|].
    unfold findAt in H. simpl in H.
    destruct (covers l x) eqn:Hx; [discriminate|].
    constructor; [now apply covers_false_iff | now apply IH].
  - intros H. rewrite <- (app_nil_r anns). now rewrite findAt_skip.
Qed.

(** C8.  [findAt] returns the first line description, in list order, whose
    lines contain the queried line, and nothing when none contains it; of
    two descriptions containing the line the earlier one is returned,
    whatever else their line lists hold.  The hover provider answers [null]
    exactly when nothing is found and otherwise shows the content of the
    description found. *)
Theorem findAt_first l anns :
  (forall a,
      findAt l anns = Some a
      <-> exists pre post,
            anns = pre ++ a :: post
            /\ In l (lines a)
            /\ Forall (fun b => ~ In l (lines b)) pre)
  /\ (findAt l anns = None <-> Forall (fun b => ~ In l (lines b)) anns)
  /\ (forall a b rest,
        anns = a :: b :: rest ->
        In l (lines a) -> In l (lines b) ->
        findAt l anns = Some a)
  /\ (forall pre a mid b post,
        anns = pre ++ a :: mid ++ b :: post ->
        Forall (fun x => ~ In l (lines x)) pre ->
        In l (lines a) -> In l (lines b) ->
        findAt l anns = Some a)
  /\ (forall column,
        provideHover anns (mkPosition l column) = None
        <-> Forall (fun b => ~ In l (lines b)) anns)
  /\ (forall column a,
        findAt l anns = Some a ->
        exists picture,
          provideHover anns (mkPosition l column)
          = Some (str "**Line Description**" :: content a :: picture)).
Proof.
  split; [|split; [apply findAt_None|split; [|split; [|split]]]].
  - intros a. split; [apply findAt_Some|].
    intros (pre & post & -> & Hin & Hpre).
    rewrite findAt_skip by assumption. now apply findAt_head.
  - intros a b rest -> Ha _. now apply findAt_head.
  - intros pre a mid b post -> Hpre Ha _.
    rewrite findAt_skip by assumption. now apply findAt_head.
  - intros column. rewrite <- findAt_None. unfold provideHover. simpl.
    destruct (findAt l anns); split; congruence.
  - intros column a Ha. unfold provideHover. simpl. rewrite Ha.
    eexists. reflexivity.
Qed.

Lemma findAt_first_witness :
  findAt 2 [firstAnn; secondAnn] = Some firstAnn.
Proof.
  destruct (findAt_first 2 [firstAnn; secondAnn]) as (_ & _ & Htie & _).
  apply (Htie firstAnn secondAnn []); [reflexivity | simpl; auto ..].
Defined.

Lemma lineDecoration_range l :
  decorationRange (lineDecoration l) = mkRange l 1 l 1.
Proof.
  unfold lineDecoration, newRange; simpl.
  now rewrite Z.ltb_irrefl, Z.eqb_refl.
Qed.

Lemma origins_decorations anns :
  map fst (origins anns) = createLineDescriptionDecorations anns.
Proof.
  unfold origins, createLineDescriptionDecorations.
  induction anns as [|a anns IH]; [reflexivity|].
  simpl. rewrite map_app, IH, map_map. reflexivity.
Qed.

Lemma origins_In anns d a :
  In (d, a) (origins anns)
  <-> In a anns /\ exists l, In l (lines a) /\ d = lineDecoration l.
Proof.
  unfold origins. rewrite in_flat_map. split.
  - intros (x & Hx & Hin). apply in_map_iff in Hin as (l & [= <- <-] & Hl).
    eauto.
  - intros (Ha & l & Hl & ->). exists a. split; [exact Ha|].
    apply in_map_iff. eauto.
Qed.

(** C9 (amended).  [createLineDescriptionDecorations] gives one whole-line
    decoration per entry of each description's line list, ranged at that
    line, descriptions in list order and lines in list order within a
    description, so their number is the sum of the lengths of the line
    lists.  A decoration holds its range and fixed styling only; looking up
    its line with [findAt] gives a description containing that line, and
    gives the description it was made from when no earlier description
    contains the line. *)
Theorem decorations_fan_out anns :
  List.length (createLineDescriptionDecorations anns)
  = list_sum (map (fun desc => List.length (lines desc)) anns)
  /\ createLineDescriptionDecorations anns
     = map lineDecoration (flat_map lines anns)
  /\ map decorationRange (createLineDescriptionDecorations anns)
     = map (fun l => mkRange l 1 l 1) (flat_map lines anns)
  /\ Forall (fun d => isWholeLine (options d) = true)
            (createLineDescriptionDecorations anns)
  /\ (forall d a,
        In (d, a) (origins anns) ->
        exists b, findAt (decorationLine d) anns = Some b
                  /\ In (decorationLine d) (lines b))
  /\ (forall pre a post d,
        anns = pre ++ a :: post ->
        In (d, a) (origins anns) ->
        Forall (fun b => ~ In (decorationLine d) (lines b)) pre ->
        findAt (decorationLine d) anns = Some a).
Proof.
  assert (Hflat : createLineDescriptionDecorations anns
                  = map lineDecoration (flat_map lines anns)).
  { unfold createLineDescriptionDecorations.
    induction anns as [|a anns IH]; [reflexivity|].
    simpl. now rewrite map_app, IH. }
  split; [|split; [exact Hflat|split; [|split; [|split]]]].
  - clear Hflat. unfold createLineDescriptionDecorations.
    induction anns as [|a anns IH]; [reflexivity|].
    simpl. now rewrite length_app, length_map, IH.
  - rewrite Hflat, map_map. apply map_ext. apply lineDecoration_range.
  - rewrite Hflat. apply Forall_forall. intros d Hd.
    apply in_map_iff in Hd as (l & <- & _). reflexivity.
  - intros d a Hda. apply origins_In in Hda as (Ha & l & Hl & ->).
    unfold decorationLine. rewrite lineDecoration_range. simpl.
    destruct (findAt l anns) as [b|] eqn:Hfind.
    + exists b. split; [reflexivity|].
      apply findAt_Some in Hfind as (_ & _ & _ & Hin & _). exact Hin.
    + apply findAt_None in Hfind. rewrite Forall_forall in Hfind.
      exfalso. exact (Hfind a Ha Hl).
  - intros pre a post d -> Hda Hpre.
    apply origins_In in Hda as (_ & l & Hl & ->).
    unfold decorationLine in *. rewrite lineDecoration_range in *. simpl in *.
    rewrite findAt_skip by assumption. now apply findAt_head.
Qed.

Lemma decorations_fan_out_witness :
  findAt (decorationLine (lineDecoration 5)) [firstAnn; secondAnn]
  = Some secondAnn.
Proof.
  destruct (decorations_fan_out [firstAnn; secondAnn])
    as (_ & _ & _ & _ & _ & Horigin).
  apply (Horigin [firstAnn] secondAnn [] (lineDecoration 5)).
  - reflexivity.
  - apply origins_In. split; [simpl; auto|].
    exists 5. split; [simpl; auto | reflexivity].
  - repeat constructor. simpl. intros [H|[H|[]]]; discriminate.
Defined.

(** C9 as stated fails: the decoration made from the second description's
    line 2 equals the one made from the first description's line 2, and the
    lookup at that line gives the first description; nothing computed from
    a decoration can give back the description it was made from. *)
Lemma decoration_origin_lost :
  In (lineDecoration 2, firstAnn) (origins [firstAnn; secondAnn])
  /\ In (lineDecoration 2, secondAnn) (origins [firstAnn; secondAnn])
  /\ findAt (decorationLine (lineDecoration 2)) [firstAnn; secondAnn]
     <> Some secondAnn
  /\ ~ (forall anns, exists recover : Decoration -> option LineDescription,
          forall d a, In (d, a) (origins anns) -> recover d = Some a).
Proof.
  assert (H1 : In (lineDecoration 2, firstAnn) (origins [firstAnn; secondAnn]))
    by (simpl; auto).
  assert (H2 : In (lineDecoration 2, secondAnn)
                  (origins [firstAnn; secondAnn]))
    by (simpl; auto).
  split; [exact H1|]. split; [exact H2|]. split.
  - vm_compute. discriminate.
  - intros H. destruct (H [firstAnn; secondAnn]) as (recover & Hrec).
    pose proof (Hrec _ _ H1) as E1. pose proof (Hrec _ _ H2) as E2.
    rewrite E1 in E2. discriminate.
Qed.

(* ================================================================== *)
(** ** Every region is a block of the text                            *)
(* ================================================================== *)

Lemma Forall_other_head l mid :
  Forall (fun x => lineKind x = KOther) (l :: mid) -> lineKind l = KOther.
Proof. now inversion 1. Qed.

(** What the scan emits from an index on: the open block once it closes,
    and the blocks that begin later. *)
Lemma emit_blocks ls : forall index cs t d r,
  In r (emit ls index cs t d)
  <-> (exists s mid e post,
          cs = Some s
          /\ ls = mid ++ e :: post
          /\ Forall (fun l => lineKind l = KOther) mid
          /\ lineKind e = KEnd
          /\ r = mkRegion s (index + Z.of_nat (List.length mid)) d t)
      \/ (exists pre b mid e post,
             ls = pre ++ b :: mid ++ e :: post
             /\ lineKind b = KBegin
             /\ Forall (fun l => lineKind l = KOther) mid
             /\ lineKind e = KEnd
             /\ r = mkRegion (index + Z.of_nat (List.length pre) + 1)
                             (index + Z.of_nat (List.length pre) + 1
                              + Z.of_nat (List.length mid))
                             (snd (heading b)) (fst (heading b))).
Proof.
  induction ls as [|l ls IH]; intros index cs t d r.
  - rewrite emit_nil. split; [intros []|].
    intros [(s & mid & e & post & _ & H & _)|(pre & b & mid & e & post & H & _)].
    + now destruct mid.
    + now destruct pre.
  - destruct (lineKind l) eqn:K.
    + (* a begin line opens a block at the next index *)
      rewrite (emit_begin _ _ _ _ _ _ K), IH. split.
      * intros [(s & mid & e & post & [= <-] & -> & Hmid & He & ->)
               |(pre & b & mid & e & post & -> & Hb & Hmid & He & ->)];
          right.
        -- exists [], l, mid, e, post. cbn [List.length app].
           repeat split; auto. f_equal; lia.
        -- exists (l :: pre), b, mid, e, post. cbn [List.length app].
           repeat split; auto. f_equal; lia.
      * intros [(s & mid & e & post & _ & Heq & Hmid & He & _)
               |(pre & b & mid & e & post & Heq & Hb & Hmid & He & ->)].
        -- destruct mid as [|m mid]; cbn [app] in Heq;
             injection Heq as <- _.
           ++ congruence.
           ++ apply Forall_other_head in Hmid. congruence.
        -- destruct pre as [|p pre]; cbn [app] in Heq.
           ++ injection Heq as <- ->. left.
              exists (index + 1), mid, e, post. cbn [List.length].
              repeat split; auto. f_equal; lia.
           ++ injection Heq as <- ->. right.
              exists pre, b, mid, e, post. cbn [List.length].
              repeat split; auto. f_equal; lia.
    + (* an end line closes the open block, if any *)
      destruct cs as [s|].
      * rewrite (emit_end_open _ _ _ _ _ _ K). cbn [In]. rewrite IH. split.
        -- intros [<-|[(s' & _ & _ & _ & Hs & _)
                      |(pre & b & mid & e & post & -> & Hb & Hmid & He & ->)]].
           ++ left. exists s, [], l, ls. cbn [List.length app].
              repeat split; auto. f_equal; lia.
           ++ discriminate.
           ++ right. exists (l :: pre), b, mid, e, post.
              cbn [List.length app]. repeat split; auto. f_equal; lia.
        -- intros [(s' & mid & e & post & [= <-] & Heq & Hmid & He & ->)
                  |(pre & b & mid & e & post & Heq & Hb & Hmid & He & ->)].
           ++ destruct mid as [|m mid]; cbn [app] in Heq;
                injection Heq as <- _.
              ** left. cbn [List.length]. f_equal; lia.
              ** apply Forall_other_head in Hmid. congruence.
           ++ destruct pre as [|p pre]; cbn [app] in Heq;
                injection Heq as <- ->; [congruence|].
              right. right. exists pre, b, mid, e, post. cbn [List.length].
              repeat split; auto. f_equal; lia.
      * rewrite (emit_end_closed _ _ _ _ _ K), IH. split.
        -- intros [(s' & _ & _ & _ & Hs & _)
                  |(pre & b & mid & e & post & -> & Hb & Hmid & He & ->)];
             [discriminate|].
           right. exists (l :: pre), b, mid, e, post.
           cbn [List.length app]. repeat split; auto. f_equal; lia.
        -- intros [(s' & _ & _ & _ & Hs & _)
                  |(pre & b & mid & e & post & Heq & Hb & Hmid & He & ->)];
             [discriminate|].
           destruct pre as [|p pre]; cbn [app] in Heq;
             injection Heq as <- ->; [congruence|].
           right. exists pre, b, mid, e, post. cbn [List.length].
           repeat split; auto. f_equal; lia.
    + (* any other line leaves the state alone *)
      rewrite (emit_other _ _ _ _ _ _ K), IH. split.
      * intros [(s & mid & e & post & -> & -> & Hmid & He & ->)
               |(pre & b & mid & e & post & -> & Hb & Hmid & He & ->)].
        -- left. exists s, (l :: mid), e, post. cbn [List.length app].
           repeat split; auto. f_equal; lia.
        -- right. exists (l :: pre), b, mid, e, post.
           cbn [List.length app]. repeat split; auto. f_equal; lia.
      * intros [(s & mid & e & post & -> & Heq & Hmid & He & ->)
               |(pre & b & mid & e & post & Heq & Hb & Hmid & He & ->)].
        -- destruct mid as [|m mid]; cbn [app] in Heq;
             injection Heq as <- ->; [congruence|].
           left. exists s, mid, e, post. cbn [List.length].
           inversion Hmid; subst. repeat split; auto. f_equal; lia.
        -- destruct pre as [|p pre]; cbn [app] in Heq;
             injection Heq as <- ->; [congruence|].
           right. exists pre, b, mid, e, post. cbn [List.length].
           repeat split; auto. f_equal; lia.
Qed.

(** X1.  For every text, the regions [parse] returns are exactly the
    blocks of the text: a line holding the begin marker, any number of
    lines holding no marker, then a line holding the end marker.  The
    region starts at the begin line, ends at the line before the end line
    and carries the heading of the begin line. *)
Theorem parse_blocks code r :
  In r (parse code) <-> isBlock (split_lines code) r.
Proof.
  rewrite parse_emit, emit_blocks. unfold isBlock. split.
  - intros [(s & _ & _ & _ & Hs & _)
           |(pre & b & mid & e & post & Heq & Hb & Hmid & He & ->)];
      [discriminate|].
    exists pre, b, mid, e, post. cbn. repeat split; auto.
  - intros (pre & b & mid & e & post & Heq & Hb & Hmid & He
            & Hs & Hend & Ht & Hd).
    right. exists pre, b, mid, e, post. repeat split; auto.
    destruct r as [s e' d t]; cbn in *. subst. f_equal.
Qed.

(* ================================================================== *)
(** ** Validated regions and the decorations of the playground        *)
(* ================================================================== *)

Import PlaygroundDecorations.

Lemma validatedRegions_bounds totalLines rs :
  1 <= totalLines ->
  Forall (fun r => 1 <= start r /\ start r <= end_ r /\ end_ r <= totalLines)
         (validatedRegions totalLines rs).
Proof.
  intros Ht. apply Forall_forall. intros r Hr.
  apply filter_In in Hr as [Hin Hle]. apply Z.leb_le in Hle.
  apply in_map_iff in Hin as (r0 & <- & _).
  unfold clampRegion in *; simpl in *. lia.
Qed.

Lemma newRange_lines sl sc el ec :
  sl <= el ->
  startLineNumber (newRange sl sc el ec) = sl
  /\ endLineNumber (newRange sl sc el ec) = el.
Proof.
  intros H. unfold newRange.
  destruct (el <? sl) eqn:E1; [apply Z.ltb_lt in E1; lia|].
  destruct (sl =? el) eqn:E2; cbn [orb andb].
  - apply Z.eqb_eq in E2. subst. destruct (ec <? sc); simpl; auto.
  - simpl; auto.
Qed.

Section DecorationFacts.

Variable getLineMaxColumn : Z -> option Z.
Variable totalLines : Z.
Hypothesis model_lines :
  forall l, 1 <= l <= totalLines -> getLineMaxColumn l <> None.

Lemma editableDecorations_defined validated :
  Forall (fun r => 1 <= start r /\ start r <= end_ r /\ end_ r <= totalLines)
         validated ->
  exists ds, editableDecorations getLineMaxColumn validated = Some ds
             /\ map (fun d => (startLineNumber (decoRange d),
                               endLineNumber (decoRange d))) ds
                = map (fun r => (start r, end_ r)) validated.
Proof.
  induction 1 as [|r rs (H1 & H2 & H3) Hrs (ds & Hds & Hlines)].
  - exists []. split; reflexivity.
  - cbn [editableDecorations]. unfold editableDecoration.
    destruct (getLineMaxColumn (end_ r)) as [c|] eqn:Hc;
      [|exfalso; apply (model_lines (end_ r)); [lia | exact Hc]].
    rewrite Hds. eexists. split; [reflexivity|].
    cbn [map decoRange]. rewrite Hlines.
    destruct (newRange_lines (start r) 1 (end_ r) c H2) as [-> ->].
    reflexivity.
Qed.

Lemma readOnlyDecoration_defined fromLine toLine :
  1 <= fromLine <= toLine -> toLine <= totalLines ->
  exists d, readOnlyDecoration getLineMaxColumn fromLine toLine = Some d
            /\ decoLines d = (fromLine, toLine).
Proof.
  intros H1 H2. unfold readOnlyDecoration.
  destruct (getLineMaxColumn toLine) as [c|] eqn:Hc;
    [|exfalso; apply (model_lines toLine); [lia | exact Hc]].
  eexists. split; [reflexivity|]. unfold decoLines. cbn [decoRange].
  destruct (newRange_lines fromLine 1 toLine c) as [-> ->]; [lia|].
  reflexivity.
Qed.

(** On regions within the document the loop never asks for a line outside
    the model, and it walks through the spans between the regions. *)
Lemma readOnlyLoop_spans validated : forall acc lastEnd,
  0 <= lastEnd <= totalLines ->
  Forall (fun r => 1 <= start r /\ start r <= end_ r /\ end_ r <= totalLines)
         validated ->
  exists ds lastEnd',
    readOnlyLoop getLineMaxColumn validated acc lastEnd
    = Some (acc ++ ds, lastEnd')
    /\ 0 <= lastEnd' <= totalLines
    /\ map decoLines ds
       ++ (if lastEnd' <? totalLines then [(lastEnd' + 1, totalLines)] else [])
       = spans validated lastEnd totalLines.
Proof.
  induction validated as [|r rs IH]; intros acc lastEnd Hl Hall.
  - exists [], lastEnd. cbn. rewrite app_nil_r. auto.
  - inversion Hall as [|? ? (H1 & H2 & H3) Hrs]; subst.
    cbn [readOnlyLoop spans].
    destruct (start r >? lastEnd + 1) eqn:Hgap.
    + apply Z.gtb_lt in Hgap.
      destruct (readOnlyDecoration_defined (lastEnd + 1) (start r - 1))
        as (d & -> & Hd); [lia | lia |].
      destruct (IH (acc ++ [d]) (end_ r)) as (ds & le & -> & Hle & Hsp);
        [lia | exact Hrs |].
      exists (d :: ds), le. rewrite <- app_assoc. cbn [app map].
      rewrite Hd, Hsp. auto.
    + destruct (IH acc (end_ r)) as (ds & le & -> & Hle & Hsp);
        [lia | exact Hrs |].
      exists ds, le. cbn [app]. auto.
Qed.

Lemma readOnlyDecorations_spans validated :
  1 <= totalLines ->
  Forall (fun r => 1 <= start r /\ start r <= end_ r /\ end_ r <= totalLines)
         validated ->
  exists ds,
    readOnlyDecorations getLineMaxColumn totalLines validated = Some ds
    /\ map decoLines ds = spans validated 0 totalLines.
Proof.
  intros Ht Hall. unfold readOnlyDecorations.
  destruct (readOnlyLoop_spans validated [] 0) as (ds & le & -> & Hle & Hsp);
    [lia | exact Hall |].
  cbn [app]. destruct (le <? totalLines) eqn:Hlt.
  - apply Z.ltb_lt in Hlt.
    destruct (readOnlyDecoration_defined (le + 1) totalLines)
      as (d & -> & Hd); [lia | lia |].
    exists (ds ++ [d]). split; [reflexivity|].
    rewrite map_app. cbn [map]. now rewrite Hd.
  - exists ds. split; [reflexivity|]. now rewrite app_nil_r in Hsp.
Qed.

End DecorationFacts.

Lemma placed_tail lastEnd totalLines r rs :
  StronglySorted before (r :: rs) ->
  Forall (fun x => lastEnd < start x /\ start x <= end_ x
                   /\ end_ x <= totalLines) (r :: rs) ->
  StronglySorted before rs
  /\ Forall (fun x => end_ r < start x /\ start x <= end_ x
                      /\ end_ x <= totalLines) rs.
Proof.
  intros Hs Hall.
  inversion Hs as [|? ? Hs' Hbefore]; subst.
  inversion Hall as [|? ? _ Hrs]; subst.
  split; [exact Hs'|].
  rewrite Forall_forall in *. intros x Hx.
  specialize (Hbefore x Hx). specialize (Hrs x Hx).
  unfold before in Hbefore. lia.
Qed.

Lemma spans_lower totalLines rs : forall lastEnd,
  StronglySorted before rs ->
  Forall (fun r => lastEnd < start r /\ start r <= end_ r
                   /\ end_ r <= totalLines) rs ->
  Forall (fun sp => lastEnd < fst sp) (spans rs lastEnd totalLines).
Proof.
  induction rs as [|r rs IH]; intros lastEnd Hs Hall; cbn [spans].
  - destruct (lastEnd <? totalLines); repeat constructor. cbn. lia.
  - destruct (placed_tail _ _ _ _ Hs Hall) as (Hs' & Hrs').
    inversion Hall as [|? ? (H1 & H2 & H3) _]; subst.
    apply Forall_app. split.
    + destruct (start r >? lastEnd + 1); repeat constructor. cbn. lia.
    + specialize (IH (end_ r) Hs' Hrs'). revert IH.
      apply Forall_impl. intros sp Hsp. lia.
Qed.

(** The spans are the lines of the document no region covers. *)
Lemma spans_complement totalLines rs : forall lastEnd l,
  StronglySorted before rs ->
  Forall (fun r => lastEnd < start r /\ start r <= end_ r
                   /\ end_ r <= totalLines) rs ->
  lastEnd < l <= totalLines ->
  (exists sp, In sp (spans rs lastEnd totalLines) /\ fst sp <= l <= snd sp)
  <-> ~ exists r, In r rs /\ inRegion l r.
Proof.
  induction rs as [|r rs IH]; intros lastEnd l Hs Hall Hl.
  - cbn [spans]. assert (Hlt : (lastEnd <? totalLines) = true)
      by (apply Z.ltb_lt; lia).
    rewrite Hlt. split.
    + intros _ (r & [] & _).
    + intros _. exists (lastEnd + 1, totalLines). cbn. split; auto. lia.
  - destruct (placed_tail _ _ _ _ Hs Hall) as (Hs' & Hrs').
    inversion Hall as [|? ? (H1 & H2 & H3) _]; subst.
    pose proof (spans_lower totalLines rs (end_ r) Hs' Hrs') as Hlow.
    rewrite Forall_forall in Hlow.
    cbn [spans]. destruct (Z_le_gt_dec l (end_ r)) as [Hin|Hout].
    + destruct (Z_lt_ge_dec l (start r)) as [Hlt|Hge].
      * (* before the region: the gap covers the line *)
        split.
        -- intros _ (x & [<-|Hx] & Hx'); unfold inRegion in Hx'; [lia|].
           rewrite Forall_forall in Hrs'. specialize (Hrs' x Hx). lia.
        -- intros _. exists (lastEnd + 1, start r - 1). split; [|cbn; lia].
           apply in_or_app. left.
           assert (Hgap : (start r >? lastEnd + 1) = true)
             by (apply Z.gtb_lt; lia).
           rewrite Hgap. now left.
      * (* inside the region: no span covers the line *)
        split.
        -- intros (sp & Hsp & Hcov). exfalso.
           apply in_app_or in Hsp as [Hsp|Hsp].
           ++ destruct (start r >? lastEnd + 1); [|contradiction].
              destruct Hsp as [<-|[]]. cbn in Hcov. lia.
           ++ specialize (Hlow sp Hsp). lia.
        -- intros Hno. exfalso. apply Hno. exists r.
           split; [now left | unfold inRegion; lia].
    + (* after the region: the rest of the list decides *)
      pose proof (IH (end_ r) l Hs' Hrs' ltac:(lia)) as [Hfwd Hbwd].
      split.
      * intros (sp & Hsp & Hcov) (x & [<-|Hx] & Hx').
        -- unfold inRegion in Hx'. lia.
        -- apply in_app_or in Hsp as [Hsp|Hsp].
           ++ destruct (start r >? lastEnd + 1); [|contradiction].
              destruct Hsp as [<-|[]]. cbn in Hcov. lia.
           ++ apply Hfwd; eauto.
      * intros Hno.
        destruct Hbwd as (sp & Hsp & Hcov).
        { intros (x & Hx & Hx'). apply Hno. exists x. split; [now right|].
          exact Hx'. }
        exists sp. split; auto. apply in_or_app. now right.
Qed.

(** X2.  With a model of at least one line, the decoration effect never
    asks the model about a line it does not have, whatever region list it
    is given: validation brings every region inside the document, the
    editable decorations span the validated regions and the read-only
    decorations the spans between them. *)
Theorem effect_never_throws
        (getLineMaxColumn : Z -> option Z) totalLines editableRegions :
  1 <= totalLines ->
  (forall l, 1 <= l <= totalLines -> getLineMaxColumn l <> None) ->
  Forall (fun r => 1 <= start r /\ start r <= end_ r /\ end_ r <= totalLines)
         (validatedRegions totalLines editableRegions)
  /\ exists es ros,
       effectDecorations getLineMaxColumn totalLines editableRegions
       = Some (es ++ ros)
       /\ map decoLines es
          = map (fun r => (start r, end_ r))
                (validatedRegions totalLines editableRegions)
       /\ map decoLines ros
          = spans (validatedRegions totalLines editableRegions) 0 totalLines.
Proof.
  intros Ht Hmodel.
  pose proof (validatedRegions_bounds totalLines editableRegions Ht) as Hb.
  split; [exact Hb|].
  destruct (editableDecorations_defined getLineMaxColumn totalLines Hmodel
              _ Hb) as (es & Hes & Hlines).
  destruct (readOnlyDecorations_spans getLineMaxColumn totalLines Hmodel
              _ Ht Hb) as (ros & Hros & Hsp).
  exists es, ros. unfold effectDecorations. rewrite Hes, Hros.
  repeat split; assumption.
Qed.

Lemma effect_never_throws_witness :
  exists ds,
    effectDecorations (modelColumns 3) 3
                      [mkRegion 9 2 [] []; mkRegion 7 8 [] []] = Some ds.
Proof.
  destruct (effect_never_throws (modelColumns 3) 3
              [mkRegion 9 2 [] []; mkRegion 7 8 [] []])
    as (_ & es & ros & H & _).
  - lia.
  - intros l Hl. unfold modelColumns.
    assert (E : (1 <=? l) && (l <=? 3) = true)
      by (apply andb_true_iff; split; apply Z.leb_le; lia).
    rewrite E. discriminate.
  - exists (es ++ ros). exact H.
Defined.

(** X3.  When the validated regions are in order inside the document, as
    the regions parsed from the text are, every line of the document is
    either inside a region or under exactly the read-only decorations: a
    read-only decoration covers a line if and only if no region does. *)
Theorem readOnly_complement
        (getLineMaxColumn : Z -> option Z) totalLines validated :
  1 <= totalLines ->
  (forall l, 1 <= l <= totalLines -> getLineMaxColumn l <> None) ->
  StronglySorted before validated ->
  Forall (fun r => 1 <= start r /\ start r <= end_ r /\ end_ r <= totalLines)
         validated ->
  exists ros,
    readOnlyDecorations getLineMaxColumn totalLines validated = Some ros
    /\ forall l, 1 <= l <= totalLines ->
         ((exists d, In d ros /\ rangeCovers l (decoRange d))
          <-> ~ exists r, In r validated /\ inRegion l r).
Proof.
  intros Ht Hmodel Hs Hb.
  destruct (readOnlyDecorations_spans getLineMaxColumn totalLines Hmodel
              _ Ht Hb) as (ros & Hros & Hsp).
  exists ros. split; [exact Hros|]. intros l Hl.
  rewrite <- (spans_complement totalLines validated 0 l Hs); [| |lia].
  - rewrite <- Hsp. split.
    + intros (d & Hd & Hcov). exists (decoLines d).
      split; [now apply in_map|exact Hcov].
    + intros (sp & Hsp' & Hcov).
      apply in_map_iff in Hsp' as (d & <- & Hd). exists d. split; auto.
  - revert Hb. apply Forall_impl. intros r Hr. lia.
Qed.

Lemma readOnly_complement_witness :
  exists ros,
    readOnlyDecorations (modelColumns 7) 7 (parse twoBlocks) = Some ros
    /\ map decoLines ros = [(1, 1); (4, 4); (6, 7)].
Proof.
  destruct (readOnly_complement (modelColumns 7) 7 (parse twoBlocks))
    as (ros & Hros & _).
  - lia.
  - intros l Hl. unfold modelColumns.
    assert (E : (1 <=? l) && (l <=? 7) = true)
      by (apply andb_true_iff; split; apply Z.leb_le; lia).
    rewrite E. discriminate.
  - apply parse_sorted.
  - pose proof (parse_bounds twoBlocks) as Hb. revert Hb.
    apply Forall_impl. intros r Hr.
    change (lineCount twoBlocks) with 7 in Hr. lia.
  - exists ros. split; [exact Hros|].
    assert (E : readOnlyDecorations (modelColumns 7) 7 (parse twoBlocks)
                = Some ros) by exact Hros.
    vm_compute in E. injection E as <-. reflexivity.
Defined.

(** X4.  A region lying wholly beyond the end of the document is not
    dropped by validation: it is brought onto the last line, which the
    guard then treats as editable. *)
Theorem stale_region_collapses totalLines pre r post column :
  1 <= totalLines ->
  totalLines < start r -> start r <= end_ r ->
  validatedRegions totalLines [r]
  = [ {| start := totalLines; end_ := totalLines;
         description := description r; title := title r |} ]
  /\ isPositionEditable (validatedRegions totalLines (pre ++ r :: post))
                        (mkPosition totalLines column) = true.
Proof.
  intros Ht Hs He.
  assert (Hc : clampRegion totalLines r
               = {| start := totalLines; end_ := totalLines;
                    description := description r; title := title r |})
    by (unfold clampRegion; f_equal; lia).
  assert (Hone : validatedRegions totalLines [r]
                 = [ {| start := totalLines; end_ := totalLines;
                        description := description r; title := title r |} ]).
  { unfold validatedRegions. cbn [map filter]. rewrite Hc. cbn [start end_].
    now rewrite Z.leb_refl. }
  split; [exact Hone|].
  apply isPositionEditable_iff. eexists. split.
  - rewrite validatedRegions_app. apply in_or_app. right.
    change (r :: post) with ([r] ++ post).
    rewrite validatedRegions_app, Hone. now left.
  - unfold inRegion. simpl. lia.
Qed.

Lemma stale_region_collapses_witness :
  isPositionEditable (validatedRegions 5 [mkRegion 10 12 [] []])
                     (mkPosition 5 1) = true.
Proof.
  apply (stale_region_collapses 5 [] (mkRegion 10 12 [] []) [] 1);
    simpl; lia.
Defined.

Import EditingDecorations.

Lemma readOnlyLoop_agree (getLineMaxColumn : Z -> option Z) rs :
  forall acc lastEnd,
    option_map (fun p => (map decoRange (fst p), snd p + 1))
               (PlaygroundDecorations.readOnlyLoop getLineMaxColumn rs acc
                                                   lastEnd)
    = EditingDecorations.readOnlyLoop getLineMaxColumn (map bare rs)
                                      (map decoRange acc) (lastEnd + 1).
Proof.
  induction rs as [|r rs IH]; intros acc lastEnd; [reflexivity|].
  cbn [PlaygroundDecorations.readOnlyLoop EditingDecorations.readOnlyLoop
       map bare CodeEditingView.start CodeEditingView.end_].
  rewrite Z.gtb_ltb.
  destruct (lastEnd + 1 <? start r).
  - unfold readOnlyDecoration, readOnlyRange.
    destruct (getLineMaxColumn (start r - 1)) as [c|]; [|reflexivity].
    rewrite IH, map_app. reflexivity.
  - apply IH.
Qed.

(** X5.  Given the same regions, the editing view marks the same read-only
    ranges as the playground: both walk the gaps before, between and after
    the regions, and both fail on the same line when the model lacks it. *)
Theorem readOnly_views_agree
        (getLineMaxColumn : Z -> option Z) totalLines rs :
  option_map (map decoRange)
             (readOnlyDecorations getLineMaxColumn totalLines rs)
  = readOnlyRanges getLineMaxColumn totalLines (map bare rs).
Proof.
  unfold readOnlyDecorations, readOnlyRanges.
  pose proof (readOnlyLoop_agree getLineMaxColumn rs [] 0) as H.
  cbn [map Z.add] in H. change (0 + 1) with 1 in H. rewrite <- H.
  destruct (PlaygroundDecorations.readOnlyLoop getLineMaxColumn rs [] 0)
    as [[acc lastEnd]|]; [|reflexivity].
  cbn [option_map fst snd].
  replace (lastEnd + 1 <=? totalLines) with (lastEnd <? totalLines)
    by (destruct (lastEnd <? totalLines) eqn:E1,
                 (lastEnd + 1 <=? totalLines) eqn:E2; try reflexivity;
        [apply Z.ltb_lt in E1; apply Z.leb_gt in E2
        |apply Z.ltb_ge in E1; apply Z.leb_le in E2]; lia).
  destruct (lastEnd <? totalLines); [|reflexivity].
  unfold readOnlyDecoration, readOnlyRange.
  destruct (getLineMaxColumn totalLines); [|reflexivity].
  cbn [option_map]. now rewrite map_app.
Qed.

(** On the regions of a text the listener's lookup finds a region exactly
    when that region contains the line: the regions share no line, so the
    first one found is the only one. *)
Lemma onMouseDown_parse code p selected :
  (forall r,
      onMouseDown (parse code) (Some p) selected = Some r
      <-> In r (parse code) /\ inRegion (lineNumber p) r)
  /\ (onMouseDown (parse code) (Some p) selected = None
      <-> forall r, In r (parse code) -> ~ inRegion (lineNumber p) r).
Proof.
  assert (Hsome : forall r,
             onMouseDown (parse code) (Some p) selected = Some r ->
             In r (parse code) /\ inRegion (lineNumber p) r).
  { intros r H. unfold onMouseDown in H. apply find_some in H as [Hin H].
    split; [exact Hin|]. apply andb_true_iff in H as [H1 H2].
    apply Z.geb_le in H1. apply Z.leb_le in H2. unfold inRegion. lia. }
  assert (Hnone : onMouseDown (parse code) (Some p) selected = None
                  <-> forall r, In r (parse code) ->
                                ~ inRegion (lineNumber p) r).
  { unfold onMouseDown. split.
    - intros H r Hin [H1 H2]. pose proof (find_none _ _ H r Hin) as Hr.
      cbv beta in Hr. apply andb_false_iff in Hr as [Hr|Hr].
      + rewrite Z.geb_leb in Hr. apply Z.leb_gt in Hr. lia.
      + apply Z.leb_gt in Hr. lia.
    - intros H. destruct (find _ _) as [r|] eqn:Hf; [|reflexivity].
      apply find_some in Hf as [Hin Hr]. exfalso. apply (H r Hin).
      apply andb_true_iff in Hr as [H1 H2].
      apply Z.geb_le in H1. apply Z.leb_le in H2. unfold inRegion. lia. }
  split; [|exact Hnone].
  intros r. split; [apply Hsome|].
  intros [Hin Hr].
  assert (Hfound : onMouseDown (parse code) (Some p) selected <> None).
  { intros Hf. exact (proj1 Hnone Hf r Hin Hr). }
  clear Hnone.
  destruct (onMouseDown (parse code) (Some p) selected) as [r'|] eqn:Hf.
  - destruct (Hsome r' eq_refl) as [Hin' Hr'].
    apply In_nth_error in Hin as (i & Hi).
    apply In_nth_error in Hin' as (j & Hj).
    assert (Hord : Forall (fun r => start r <= end_ r) (parse code)).
    { pose proof (parse_bounds code) as Hbd. revert Hbd.
      apply Forall_impl. intros x Hx. lia. }
    destruct (Nat.eq_dec i j) as [->|Hij]; [congruence|].
    exfalso.
    exact (sorted_disjoint _ (parse_sorted code) Hord i j r r'
             (lineNumber p) Hij Hi Hj Hr Hr').
  - contradiction.
Qed.

(** The region list of the component is always the parse of some text: the
    initial empty list is what the empty text gives. *)
Lemma editableRegions_parsed events :
  exists code,
    PlaygroundState.editableRegions
      (PlaygroundState.run events PlaygroundState.initial)
    = parse code.
Proof.
  unfold PlaygroundState.run.
  assert (H : forall c,
             (exists code, PlaygroundState.editableRegions c = parse code) ->
             exists code,
               PlaygroundState.editableRegions
                 (fold_left PlaygroundState.step events c) = parse code).
  { induction events as [|e events IH]; intros c Hc; [exact Hc|].
    cbn [fold_left]. apply IH.
    destruct e; cbn [PlaygroundState.step PlaygroundState.editableRegions];
      eauto. }
  apply H. exists []. reflexivity.
Qed.

(** Only a render changes the region list. *)
Lemma editableRegions_kept events : forall c,
  (forall code, ~ In (PlaygroundState.Render code) events) ->
  PlaygroundState.editableRegions (PlaygroundState.run events c)
  = PlaygroundState.editableRegions c.
Proof.
  unfold PlaygroundState.run.
  induction events as [|e events IH]; intros c H; [reflexivity|].
  cbn [fold_left]. rewrite IH by (intros code Hin; apply (H code); now right).
  destruct e; try reflexivity.
  exfalso. apply (H code). now left.
Qed.

(** Only [handleEditorDidMount] changes the listeners. *)
Lemma mouseDownListeners_kept events : forall c,
  ~ In PlaygroundState.EditorDidMount events ->
  PlaygroundState.mouseDownListeners (PlaygroundState.run events c)
  = PlaygroundState.mouseDownListeners c.
Proof.
  unfold PlaygroundState.run.
  induction events as [|e events IH]; intros c H; [reflexivity|].
  cbn [fold_left]. rewrite IH by (intros Hin; apply H; now right).
  destruct e; try reflexivity.
  exfalso. apply H. now left.
Qed.

(** X6.  The mouse-down listener works on the region list of the render
    whose [handleEditorDidMount] registered it, whatever is rendered
    afterwards: once the listener is registered, a click on a line selects
    region [r] exactly when [r] is a region of that list containing the
    line, clears the selection exactly when no region of that list contains
    the line, and changes nothing when the event has no position.  If no
    text had been rendered when the listener was registered, every click on
    a line clears the selection. *)
Theorem mouseDown_regions_fixed earlier later p :
  let mounted := PlaygroundState.run earlier PlaygroundState.initial in
  let c := PlaygroundState.run later
             (PlaygroundState.step mounted PlaygroundState.EditorDidMount) in
  let clicked :=
    PlaygroundState.selectedRegion
      (PlaygroundState.step c (PlaygroundState.MouseDown (Some p))) in
  ~ In PlaygroundState.EditorDidMount later ->
  (forall r,
      clicked = Some r
      <-> In r (PlaygroundState.editableRegions mounted)
          /\ inRegion (lineNumber p) r)
  /\ (clicked = None
      <-> forall r, In r (PlaygroundState.editableRegions mounted) ->
                    ~ inRegion (lineNumber p) r)
  /\ PlaygroundState.selectedRegion
       (PlaygroundState.step c (PlaygroundState.MouseDown None))
     = PlaygroundState.selectedRegion c
  /\ ((forall code, ~ In (PlaygroundState.Render code) earlier) ->
      clicked = None).
Proof.
  intros mounted c clicked Hlater.
  assert (Hls : PlaygroundState.mouseDownListeners c
                = PlaygroundState.mouseDownListeners mounted
                  ++ [PlaygroundState.editableRegions mounted]).
  { unfold c. now rewrite mouseDownListeners_kept. }
  assert (Hclicked : clicked
                     = onMouseDown (PlaygroundState.editableRegions mounted)
                                   (Some p) None).
  { unfold clicked.
    cbn [PlaygroundState.step PlaygroundState.selectedRegion].
    rewrite Hls, fold_left_app. reflexivity. }
  destruct (editableRegions_parsed earlier) as (code & Hcode).
  fold mounted in Hcode.
  destruct (onMouseDown_parse code p None) as [Hsome Hnone].
  rewrite <- Hcode in Hsome, Hnone. rewrite <- Hclicked in Hsome, Hnone.
  split; [exact Hsome|]. split; [exact Hnone|]. split.
  - cbn [PlaygroundState.step PlaygroundState.selectedRegion].
    clear Hls. generalize (PlaygroundState.selectedRegion c).
    induction (PlaygroundState.mouseDownListeners c) as [|rs ls IH];
      intros s; [reflexivity|].
    cbn [fold_left onMouseDown]. apply IH.
  - intros Hno. apply Hnone. unfold mounted.
    rewrite editableRegions_kept by exact Hno. intros r [].
Qed.

(** The listener registered by the first render's handler keeps the empty
    list: after [twoBlocks] is rendered a click on its line 3 clears the
    selection, although the guard lets that line be edited. *)
Lemma mouseDown_regions_fixed_witness :
  let c := PlaygroundState.run
             [PlaygroundState.Render twoBlocks]
             (PlaygroundState.step PlaygroundState.initial
                                   PlaygroundState.EditorDidMount) in
  PlaygroundState.selectedRegion
    (PlaygroundState.step
       c (PlaygroundState.MouseDown (Some (mkPosition 3 1)))) = None
  /\ isPositionEditable
       (validatedRegions (lineCount twoBlocks)
                         (PlaygroundState.editableRegions c))
       (mkPosition 3 1) = true.
Proof.
  cbv zeta. split; [|vm_compute; reflexivity].
  assert (Hlater : ~ In PlaygroundState.EditorDidMount
                        [PlaygroundState.Render twoBlocks])
    by (intros [H|[]]; discriminate).
  destruct (mouseDown_regions_fixed
              [] [PlaygroundState.Render twoBlocks] (mkPosition 3 1) Hlater)
    as (_ & _ & _ & Hnever).
  apply Hnever. intros code [].
Defined.

(* ================================================================== *)
(** ** More on the key-down handler                                   *)
(* ================================================================== *)

Lemma onKeyDown_navigation_witness :
  onKeyDown [] (Some [mkSelection (mkRange 1 1 1 1) 1 1])
            (mkKey KeyCode.LeftArrow false true false false) = false.
Proof.
  apply onKeyDown_navigation. simpl. auto.
Defined.

Lemma onKeyDown_cursor_witness :
  onKeyDown [mkRegion 3 5 [] []] (Some [mkSelection (mkRange 4 2 4 2) 4 2])
            (mkKey KeyCode.Backspace false false false false) = false.
Proof.
  apply (onKeyDown_cursor [mkRegion 3 5 [] []]
           (mkSelection (mkRange 4 2 4 2) 4 2)
           (mkKey KeyCode.Backspace false false false false)
           eq_refl eq_refl).
  exists (mkRegion 3 5 [] []). split; [now left|].
  unfold inRegion; simpl; lia.
Defined.

(** X9.  With several cursors or selections the handler blocks a key
    exactly when the key is one it tests for and at least one of the
    selections is not editable; without selections nothing is blocked. *)
Theorem onKeyDown_blocked validated e :
  (forall selections,
      onKeyDown validated (Some selections) e = true
      <-> isEditingKey e = true
          /\ exists s, In s selections
                       /\ selectionEditable validated s = false)
  /\ onKeyDown validated None e = false
  /\ onKeyDown validated (Some []) e = false.
Proof.
  split; [|split; reflexivity].
  intros selections. unfold onKeyDown, isEditAllowed.
  destruct (forallb (selectionEditable validated) selections) eqn:Hall;
    cbn [negb].
  - split; [discriminate|].
    intros (_ & s & Hin & Hs).
    rewrite forallb_forall in Hall. rewrite (Hall s Hin) in Hs.
    discriminate.
  - split.
    + intros He. split; [exact He|].
      apply not_true_iff_false in Hall.
      destruct (existsb (fun s => negb (selectionEditable validated s))
                        selections) eqn:Hex.
      * apply existsb_exists in Hex as (s & Hin & Hs).
        exists s. split; [exact Hin|]. now apply negb_true_iff.
      * exfalso. apply Hall. apply forallb_forall. intros s Hin.
        destruct (selectionEditable validated s) eqn:Hs; [reflexivity|].
        assert (existsb (fun s => negb (selectionEditable validated s))
                        selections = true)
          by (apply existsb_exists; exists s; split; auto;
              now rewrite Hs).
        congruence.
    + intros [He _]. exact He.
Qed.

(* ================================================================== *)
(** ** More on line descriptions                                      *)
(* ================================================================== *)

Lemma lineDecoration_inj l1 l2 :
  lineDecoration l1 = lineDecoration l2 -> l1 = l2.
Proof.
  intros H. apply (f_equal decorationRange) in H.
  rewrite !lineDecoration_range in H. now injection H.
Qed.

(** X10.  A line carries a line-description decoration exactly when the
    hover provider answers on that line: every highlighted line has a
    hover, and no other line has. *)
Theorem hover_iff_decorated anns l column :
  In (lineDecoration l) (createLineDescriptionDecorations anns)
  <-> provideHover anns (mkPosition l column) <> None.
Proof.
  unfold provideHover. cbn [lineNumber].
  unfold createLineDescriptionDecorations. rewrite in_flat_map. split.
  - intros (a & Ha & Hin). apply in_map_iff in Hin as (l' & Heq & Hl').
    apply lineDecoration_inj in Heq. subst l'.
    destruct (findAt l anns) eqn:Hf; [discriminate|].
    apply findAt_None in Hf. rewrite Forall_forall in Hf.
    exfalso. exact (Hf a Ha Hl').
  - intros H. destruct (findAt l anns) as [a|] eqn:Hf; [|contradiction].
    apply findAt_Some in Hf as (pre & post & -> & Hin & _).
    exists a. split; [apply in_elt|]. now apply in_map.
Qed.

(** X11.  A line description without lines, as the editor creates them,
    shows nowhere: it adds no decoration and no lookup ever returns it or
    is changed by it. *)
Theorem empty_description_inert pre d post :
  lines d = [] ->
  createLineDescriptionDecorations (pre ++ d :: post)
  = createLineDescriptionDecorations (pre ++ post)
  /\ (forall l, findAt l (pre ++ d :: post) = findAt l (pre ++ post))
  /\ (forall l, findAt l (pre ++ d :: post) <> Some d).
Proof.
  intros Hd.
  assert (Hfind : forall l, findAt l (pre ++ d :: post)
                            = findAt l (pre ++ post)).
  { intros l. unfold findAt. induction pre as [|x pre IH]; cbn.
    - unfold covers. now rewrite Hd.
    - now rewrite IH. }
  split; [|split; [exact Hfind|]].
  - unfold createLineDescriptionDecorations.
    rewrite !flat_map_app. cbn [flat_map]. now rewrite Hd.
  - intros l H. apply findAt_Some in H as (_ & _ & _ & Hin & _).
    now rewrite Hd in Hin.
Qed.

Lemma empty_description_inert_witness :
  createLineDescriptionDecorations
    [firstAnn; mkDesc [] (str "new") None; secondAnn]
  = createLineDescriptionDecorations [firstAnn; secondAnn].
Proof.
  apply (empty_description_inert [firstAnn] (mkDesc [] (str "new") None)
           [secondAnn] eq_refl).
Defined.

(* ================================================================== *)
(** ** The Move file service                                          *)
(* ================================================================== *)

Lemma service_forEach lines : forall index st st',
  Forall markersAgree lines ->
  map (fun r => (MoveFileService.startLine r, MoveFileService.endLine r))
      (MoveFileService.regions st')
  = map (fun r => (start r + 1, end_ r)) (regions st) ->
  option_map fst (MoveFileService.currentRegion st')
  = option_map (fun s => s + 1) (currentStart st) ->
  map (fun r => (MoveFileService.startLine r, MoveFileService.endLine r))
      (MoveFileService.regions (MoveFileService.forEach lines index st'))
  = map (fun r => (start r + 1, end_ r)) (regions (forEach lines index st)).
Proof.
  induction lines as [|l ls IH]; intros index st st' Hagree Hr Hc;
    [exact Hr|].
  inversion Hagree as [|? ? [Hb He] Hls]; subst.
  destruct st as [rs cs t d], st' as [rs' cr]; cbn in Hr, Hc.
  cbn [forEach MoveFileService.forEach]. apply IH; [exact Hls| |];
    unfold step, MoveFileService.step; rewrite Hb, He;
    generalize (includes l BEGIN_MARKER) (includes l END_MARKER);
    intros [|] [|];
    destruct cs as [s|], cr as [[s' d']|];
    cbn [regions currentStart MoveFileService.regions
         MoveFileService.currentRegion option_map fst] in *;
    try discriminate; auto.
  injection Hc as ->.
  rewrite !map_app, Hr. cbn [map MoveFileService.startLine
                             MoveFileService.endLine start end_].
  do 3 f_equal. lia.
Qed.

(** X12.  On a text whose lines the file service and the playground
    classify alike, [getEditableRegions] finds the same regions as the
    playground with the same last line, but starting one line later: the
    file service leaves the begin marker's line out, the playground
    includes it. *)
Theorem service_regions_shifted text :
  Forall markersAgree (split_lines text) ->
  map (fun r => (MoveFileService.startLine r, MoveFileService.endLine r))
      (MoveFileService.regionsOf text)
  = map (fun r => (start r + 1, end_ r)) (parse text).
Proof.
  intros H. unfold MoveFileService.regionsOf, parse, parseLines.
  now apply service_forEach.
Qed.

Lemma service_regions_shifted_witness :
  map (fun r => (MoveFileService.startLine r, MoveFileService.endLine r))
      (MoveFileService.regionsOf colonMarkers) = [(3, 3)]
  /\ map (fun r => (start r, end_ r)) (parse colonMarkers) = [(2, 3)].
Proof.
  split; [|vm_compute; reflexivity].
  rewrite (service_regions_shifted colonMarkers).
  - vm_compute. reflexivity.
  - assert (E : split_lines colonMarkers
                = [str "module m {"; str "// @editable-begin: Fees";
                   str "const FEE: u64 = 1;"; str "// @editable-end";
                   str "}"]) by (vm_compute; reflexivity).
    rewrite E.
    repeat (apply Forall_cons; [split; vm_compute; reflexivity|]).
    apply Forall_nil.
Defined.

Lemma split_lines_cons c s :
  c <> LF ->
  exists l ls, split_lines s = l :: ls /\ split_lines (c :: s) = (c :: l) :: ls.
Proof.
  intros Hc. cbn [split_lines].
  apply N.eqb_neq in Hc. rewrite Hc.
  destruct (split_lines s) as [|l ls] eqn:E.
  - now apply split_lines_nonempty in E.
  - eauto.
Qed.

(** Splitting a text into lines and joining them again gives the text. *)
Lemma join_split_lines s : join [LF] (split_lines s) = s.
Proof.
  induction s as [|c s IH]; [reflexivity|].
  cbn [split_lines]. destruct (c =? LF)%N eqn:E.
  - apply N.eqb_eq in E. subst c.
    destruct (split_lines s) as [|l ls] eqn:Es;
      [now apply split_lines_nonempty in Es|].
    cbn [join app] in *. now rewrite IH.
  - destruct (split_lines s) as [|l ls] eqn:Es;
      [now apply split_lines_nonempty in Es|].
    destruct ls; cbn [join app] in *; now rewrite <- IH.
Qed.

Lemma split_lines_no_LF s : Forall (fun l => ~ In LF l) (split_lines s).
Proof.
  induction s as [|c s IH]; [repeat constructor; auto|].
  cbn [split_lines]. destruct (c =? LF)%N eqn:E.
  - constructor; auto.
  - destruct (split_lines s) as [|l ls]; inversion IH; subst;
      constructor; auto.
    + intros [H|[]]. apply N.eqb_neq in E. congruence.
    + intros [H|H]; [|contradiction]. apply N.eqb_neq in E. congruence.
Qed.

Lemma split_lines_line l :
  ~ In LF l -> split_lines l = [l].
Proof.
  induction l as [|c l IH]; intros H; [reflexivity|].
  cbn [split_lines].
  assert (Hc : (c =? LF)%N = false)
    by (apply N.eqb_neq; intros ->; apply H; now left).
  rewrite Hc, IH; [reflexivity|]. intros Hin. apply H. now right.
Qed.

Lemma split_lines_app_LF l s :
  ~ In LF l -> split_lines (l ++ LF :: s) = l :: split_lines s.
Proof.
  induction l as [|c l IH]; intros H; [reflexivity|].
  cbn [app split_lines].
  assert (Hc : (c =? LF)%N = false)
    by (apply N.eqb_neq; intros ->; apply H; now left).
  rewrite Hc, IH; [reflexivity|]. intros Hin. apply H. now right.
Qed.

(** Joining lines and splitting the text again gives the lines. *)
Lemma split_lines_join ls :
  ls <> [] -> Forall (fun l => ~ In LF l) ls ->
  split_lines (join [LF] ls) = ls.
Proof.
  induction ls as [|l ls IH]; intros Hne Hall; [contradiction|].
  inversion Hall as [|? ? Hl Hls]; subst.
  destruct ls as [|l' ls].
  - cbn [join]. now apply split_lines_line.
  - cbn [join app] in *. rewrite split_lines_app_LF by assumption.
    rewrite IH; [reflexivity | discriminate | assumption].
Qed.

Lemma docLoop_spec lines : forall i docs,
  let doc l := trim (skipn 3 (trim l)) in
  let isDoc l := startsWith (trim l) (str "///") in
  (Forall (fun l => isModuleLine l = false) lines
   /\ MoveFileService.docLoop lines i docs
      = (docs ++ map doc (filter isDoc lines), O))
  \/ (exists pre l rest,
         lines = pre ++ l :: rest
         /\ Forall (fun l => isModuleLine l = false) pre
         /\ isModuleLine l = true
         /\ MoveFileService.docLoop lines i docs
            = (docs ++ map doc (filter isDoc pre), (i + List.length pre)%nat)).
Proof.
  induction lines as [|l ls IH]; intros i docs doc isDoc.
  - left. cbn. now rewrite app_nil_r.
  - cbn [MoveFileService.docLoop filter]. fold (isDoc l).
    change (trim (skipn 3 (trim l))) with (doc l).
    destruct (isDoc l) eqn:Hd.
    + assert (Hm : isModuleLine l = false)
        by (unfold isModuleLine; fold (isDoc l); now rewrite Hd).
      destruct (IH (S i) (docs ++ [doc l])) as [[Hall ->]|
        (pre & m & rest & -> & Hpre & Hmod & ->)].
      * left. split; [now constructor|].
        cbn [map]. now rewrite <- app_assoc.
      * right. exists (l :: pre), m, rest. cbn [app filter List.length].
        fold (isDoc l). rewrite Hd.
        repeat split; auto. cbn [map]. rewrite <- app_assoc. cbn [app].
        f_equal. lia.
    + destruct (startsWith (trim l) (str "module")) eqn:Hmd.
      * right. exists [], l, ls. cbn [app filter map List.length].
        rewrite app_nil_r, Nat.add_0_r. repeat split; auto.
        unfold isModuleLine. fold (isDoc l). now rewrite Hd, Hmd.
      * assert (Hm : isModuleLine l = false)
          by (unfold isModuleLine; fold (isDoc l); now rewrite Hd, Hmd).
        destruct (IH (S i) docs) as [[Hall ->]|
          (pre & m & rest & -> & Hpre & Hmod & ->)].
        -- left. split; [now constructor | reflexivity].
        -- right. exists (l :: pre), m, rest. cbn [app filter List.length].
           fold (isDoc l). rewrite Hd.
           repeat split; auto; try (f_equal; lia).
Qed.

(** The loop up to the first line that starts the code. *)
Lemma docLoop_module pre l rest : forall i docs,
  Forall (fun l => isModuleLine l = false) pre ->
  isModuleLine l = true ->
  MoveFileService.docLoop (pre ++ l :: rest) i docs
  = (docs ++ map (fun l => trim (skipn 3 (trim l)))
                 (filter (fun l => startsWith (trim l) (str "///")) pre),
     (i + List.length pre)%nat).
Proof.
  induction pre as [|x pre IH]; intros i docs Hpre Hmod.
  - cbn [app MoveFileService.docLoop filter map List.length].
    unfold isModuleLine in Hmod. apply andb_true_iff in Hmod as [Hd Hm].
    apply negb_true_iff in Hd. rewrite Hd, Hm, app_nil_r, Nat.add_0_r.
    reflexivity.
  - inversion Hpre as [|? ? Hx Hpre']; subst.
    cbn [app MoveFileService.docLoop filter List.length].
    unfold isModuleLine in Hx.
    destruct (startsWith (trim x) (str "///")) eqn:Hd.
    + rewrite IH by assumption. cbn [map]. rewrite <- app_assoc.
      cbn [app]. f_equal. lia.
    + cbn [negb andb] in Hx. rewrite Hx.
      rewrite IH by assumption. f_equal. lia.
Qed.

(** The loop on lines none of which starts the code. *)
Lemma docLoop_no_module lines : forall i docs,
  Forall (fun l => isModuleLine l = false) lines ->
  MoveFileService.docLoop lines i docs
  = (docs ++ map (fun l => trim (skipn 3 (trim l)))
                 (filter (fun l => startsWith (trim l) (str "///")) lines),
     O).
Proof.
  induction lines as [|x lines IH]; intros i docs Hall.
  - cbn. now rewrite app_nil_r.
  - inversion Hall as [|? ? Hx Hall']; subst.
    cbn [MoveFileService.docLoop filter].
    unfold isModuleLine in Hx.
    destruct (startsWith (trim x) (str "///")) eqn:Hd.
    + rewrite IH by assumption. cbn [map]. rewrite <- app_assoc.
      reflexivity.
    + cbn [negb andb] in Hx. rewrite Hx. now apply IH.
Qed.

(** X13.  [readMoveFile] on a fetched text.  When a line starts the code
    (trimmed, it starts with [module] and not with [///]), the code is the
    first such line and everything after it, joined by newlines, and the
    documentation is made of the lines before it that start with [///],
    each without the slashes and the surrounding blanks, joined by
    newlines.  When no line starts the code, the code is the whole text
    unchanged and the documentation is made of all its [///] lines.  One of
    the two cases always applies. *)
Theorem readMoveFile_code content :
  let file := MoveFileService.readMoveFile (Some content) in
  let doc := fun l => trim (skipn 3 (trim l)) in
  let isDoc := fun l => startsWith (trim l) (str "///") in
  (forall pre l rest,
      split_lines content = pre ++ l :: rest ->
      Forall (fun l => isModuleLine l = false) pre ->
      isModuleLine l = true ->
      MoveFileService.code file = join [LF] (l :: rest)
      /\ split_lines (MoveFileService.code file) = l :: rest
      /\ MoveFileService.documentation file
         = join [LF] (map doc (filter isDoc pre)))
  /\ (Forall (fun l => isModuleLine l = false) (split_lines content) ->
      MoveFileService.code file = content
      /\ MoveFileService.documentation file
         = join [LF] (map doc (filter isDoc (split_lines content))))
  /\ ((exists pre l rest,
          split_lines content = pre ++ l :: rest
          /\ Forall (fun l => isModuleLine l = false) pre
          /\ isModuleLine l = true)
      \/ Forall (fun l => isModuleLine l = false) (split_lines content)).
Proof.
  cbv zeta. unfold MoveFileService.readMoveFile.
  pose proof (split_lines_no_LF content) as HnoLF.
  split; [|split].
  - intros pre l rest Heq Hpre Hmod. rewrite Heq in HnoLF |- *.
    rewrite docLoop_module by assumption.
    cbn [MoveFileService.code MoveFileService.documentation Nat.add app].
    assert (Hskip : skipn (List.length pre) (pre ++ l :: rest) = l :: rest).
    { rewrite skipn_app, skipn_all, Nat.sub_diag. reflexivity. }
    rewrite Hskip. split; [reflexivity|]. split; [|reflexivity].
    apply split_lines_join; [discriminate|].
    apply Forall_app in HnoLF. tauto.
  - intros Hall. rewrite docLoop_no_module by assumption.
    cbn [MoveFileService.code MoveFileService.documentation skipn app].
    now rewrite join_split_lines.
  - destruct (docLoop_spec (split_lines content) 0 [])
      as [[Hall _]|(pre & l & rest & Heq & Hpre & Hmod & _)].
    + now right.
    + left. exists pre, l, rest. auto.
Qed.

(* ================================================================== *)
(** ** Line numbers typed by the author                               *)
(* ================================================================== *)

Import JsNumber LineUtils.

Lemma round_small m : Z.abs m < 2 ^ 53 -> round m = Int m.
Proof.
  intros H. unfold round. apply Z.ltb_lt in H. now rewrite H.
Qed.

Lemma drop_while_app_stop p l c :
  p c = false -> drop_while p (l ++ [c]) <> [].
Proof.
  intros Hc. induction l as [|x l IH]; cbn.
  - now rewrite Hc.
  - destruct (p x); [exact IH | discriminate].
Qed.

(** A string holding anything but blanks does not trim to nothing. *)
Lemma trim_nonblank s :
  existsb (fun c => negb (is_space c)) s = true -> trim s <> [].
Proof.
  unfold trim. intros H Ht.
  apply (f_equal (@rev cu)) in Ht. rewrite rev_involutive in Ht. cbn in Ht.
  destruct (drop_while is_space s) as [|c t] eqn:E.
  - clear Ht. induction s as [|x s IH]; [discriminate|]. cbn in *.
    destruct (is_space x); cbn in H; [now apply IH | discriminate].
  - assert (Hc : is_space c = false).
    { clear -E. induction s as [|x s IH]; [discriminate|]. cbn in E.
      destruct (is_space x) eqn:Hx; [now apply IH|].
      now injection E as <- _. }
    cbn [rev] in Ht. now apply drop_while_app_stop in Ht.
Qed.

Lemma drop_while_id s :
  forallb (fun c => negb (is_space c)) s = true -> drop_while is_space s = s.
Proof.
  destruct s as [|c s]; [reflexivity|]. cbn.
  destruct (is_space c); [discriminate | reflexivity].
Qed.

(** A string without blanks is its own trim. *)
Lemma trim_id s :
  forallb (fun c => negb (is_space c)) s = true -> trim s = s.
Proof.
  intros H. unfold trim. rewrite (drop_while_id s H).
  rewrite drop_while_id; [apply rev_involutive|].
  apply forallb_forall. intros c Hc. apply in_rev in Hc.
  rewrite forallb_forall in H. now apply H.
Qed.

(** *** Digits *)

Lemma digitChar_facts d :
  0 <= d <= 9 ->
  let c := N.of_nat (Z.to_nat d + 48) in
  digitValue 10 c = Some d
  /\ isDigit c = true
  /\ isSeparator c = false
  /\ is_space c = false
  /\ isAllowed c = true
  /\ (c =? DASH)%N = false
  /\ (c =? PLUS)%N = false
  /\ (c =? 120)%N = false
  /\ (c =? 88)%N = false.
Proof.
  intros H. cbv zeta.
  assert (Hd : d = 0 \/ d = 1 \/ d = 2 \/ d = 3 \/ d = 4 \/ d = 5
               \/ d = 6 \/ d = 7 \/ d = 8 \/ d = 9) by lia.
  repeat (destruct Hd as [->|Hd]; [vm_compute; repeat split; reflexivity|]).
  subst. vm_compute. repeat split; reflexivity.
Qed.

Lemma digitChars_forallb (P : cu -> bool) ds :
  (forall d, 0 <= d <= 9 -> P (N.of_nat (Z.to_nat d + 48)) = true) ->
  Forall (fun d => 0 <= d <= 9) ds ->
  forallb P (digitChars ds) = true.
Proof.
  intros HP. unfold digitChars.
  induction 1 as [|d ds Hd Hds IH]; [reflexivity|].
  cbn [map forallb]. now rewrite (HP d Hd), IH.
Qed.

Lemma digitChars_allowed ds :
  Forall (fun d => 0 <= d <= 9) ds ->
  forallb isAllowed (digitChars ds) = true.
Proof.
  apply digitChars_forallb. intros d Hd. apply (digitChar_facts d Hd).
Qed.

Lemma digitChars_no_separator ds :
  Forall (fun d => 0 <= d <= 9) ds ->
  forallb (fun c => negb (isSeparator c)) (digitChars ds) = true.
Proof.
  apply digitChars_forallb. intros d Hd.
  destruct (digitChar_facts d Hd) as (_ & _ & -> & _). reflexivity.
Qed.

Lemma digitChars_no_space ds :
  Forall (fun d => 0 <= d <= 9) ds ->
  forallb (fun c => negb (is_space c)) (digitChars ds) = true.
Proof.
  apply digitChars_forallb. intros d Hd.
  destruct (digitChar_facts d Hd) as (_ & _ & _ & -> & _). reflexivity.
Qed.

Lemma takeDigits_digitChars ds rest :
  Forall (fun d => 0 <= d <= 9) ds ->
  takeDigits 10 (digitChars ds ++ rest) = ds ++ takeDigits 10 rest.
Proof.
  induction 1 as [|d ds Hd Hds IH]; [reflexivity|].
  cbn [digitChars map app takeDigits].
  destruct (digitChar_facts d Hd) as (-> & _). fold (digitChars ds).
  now rewrite IH.
Qed.

Lemma parseInt_unsigned c s :
  is_space c = false ->
  (c =? DASH)%N = false -> (c =? PLUS)%N = false ->
  match s with
  | b :: _ => (b =? 120)%N || (b =? 88)%N = false
  | [] => True
  end ->
  parseInt (c :: s)
  = match takeDigits 10 (c :: s) with
    | [] => NaN
    | ds => round (digitsValue 10 ds)
    end.
Proof.
  intros Hsp Hdash Hplus Hhex. unfold parseInt.
  cbn [drop_while]. rewrite Hsp, Hdash, Hplus. cbn [orb].
  destruct s as [|b s'].
  - cbv beta iota zeta.
    destruct (takeDigits _ _); [reflexivity|]. now rewrite Z.mul_1_l.
  - rewrite Hhex, andb_false_r. cbv beta iota zeta.
    destruct (takeDigits _ _); [reflexivity|].
    now rewrite Z.mul_1_l.
Qed.

(** [parseInt] reads a decimal numeral up to its end or to a dash. *)
Lemma parseInt_digits ds rest :
  ds <> [] ->
  Forall (fun d => 0 <= d <= 9) ds ->
  rest = [] \/ (exists rest', rest = DASH :: rest') ->
  parseInt (digitChars ds ++ rest) = round (digitsValue 10 ds).
Proof.
  intros Hne Hds Hrest.
  assert (Htail : takeDigits 10 rest = []).
  { destruct Hrest as [->|(rest' & ->)]; reflexivity. }
  assert (Htake : takeDigits 10 (digitChars ds ++ rest) = ds).
  { rewrite takeDigits_digitChars, Htail by assumption. apply app_nil_r. }
  destruct ds as [|d ds]; [contradiction|].
  inversion Hds as [|? ? Hd Hds']; subst.
  destruct (digitChar_facts d Hd)
    as (Hv & _ & _ & Hsp & _ & Hdash & Hplus & Hx & HX).
  cbn [digitChars map app] in *. fold (digitChars ds) in *.
  rewrite parseInt_unsigned; auto.
  - now rewrite Htake.
  - destruct ds as [|d2 ds2].
    + cbn [digitChars map app].
      destruct Hrest as [->|(rest' & ->)]; [exact I | reflexivity].
    + inversion Hds' as [|? ? Hd2 _]; subst.
      destruct (digitChar_facts d2 Hd2)
        as (_ & _ & _ & _ & _ & _ & _ & E1 & E2).
      cbn [digitChars map app]. now rewrite E1, E2.
Qed.

(** *** Pieces *)

Lemma splitOnAux_no_dash s : forall cur,
  forallb (fun c => negb (c =? DASH)%N) s = true ->
  splitOnAux [DASH] s 0 cur = [cur ++ s].
Proof.
  induction s as [|c s IH]; intros cur H; cbn [splitOnAux].
  - now rewrite app_nil_r.
  - cbn [forallb] in H. apply andb_true_iff in H as [Hc Hs].
    cbn [strip_prefix]. apply negb_true_iff in Hc.
    rewrite N.eqb_sym in Hc. rewrite Hc, IH by assumption.
    now rewrite <- app_assoc.
Qed.

Lemma splitOn_no_dash s :
  forallb (fun c => negb (c =? DASH)%N) s = true ->
  splitOn [DASH] s = [s].
Proof. intros H. unfold splitOn. now rewrite splitOnAux_no_dash. Qed.

Lemma splitOnAux_dash a : forall cur b,
  forallb (fun c => negb (c =? DASH)%N) a = true ->
  splitOnAux [DASH] (a ++ DASH :: b) 0 cur = (cur ++ a) :: splitOn [DASH] b.
Proof.
  induction a as [|c a IH]; intros cur b H; cbn [app splitOnAux].
  - cbn [strip_prefix]. rewrite N.eqb_refl. cbn [strip_prefix List.length].
    now rewrite app_nil_r.
  - cbn [forallb] in H. apply andb_true_iff in H as [Hc Hs].
    cbn [strip_prefix]. apply negb_true_iff in Hc.
    rewrite N.eqb_sym in Hc. rewrite Hc, IH by assumption.
    now rewrite <- app_assoc.
Qed.

Lemma digitChars_no_dash ds :
  Forall (fun d => 0 <= d <= 9) ds ->
  forallb (fun c => negb (c =? DASH)%N) (digitChars ds) = true.
Proof.
  apply digitChars_forallb. intros d Hd.
  destruct (digitChar_facts d Hd) as (_ & _ & _ & _ & _ & -> & _).
  reflexivity.
Qed.

(** A numeral on its own is read as one number. *)
Lemma expandPart_numeral ds :
  ds <> [] -> Forall (fun d => 0 <= d <= 9) ds ->
  expandPart (digitChars ds) = Ok [round (digitsValue 10 ds)].
Proof.
  intros Hne Hds. unfold expandPart.
  rewrite trim_id by now apply digitChars_no_space.
  rewrite splitOn_no_dash by now apply digitChars_no_dash.
  rewrite <- (app_nil_r (digitChars ds)) at 1.
  rewrite parseInt_digits; auto.
Qed.

Lemma arrayFrom_small v1 v2 :
  0 <= v1 <= v2 -> v2 < 2 ^ 53 -> v2 - v1 + 1 <= 2 ^ 32 - 1 ->
  arrayFrom (add (sub (Int v2) (Int v1)) (Int 1)) (Int v1)
  = Ok (map Int (lineRange v1 v2)).
Proof.
  intros Hv Hb Hlen. cbn [sub].
  assert (P32 : 2 ^ 32 - 1 < 2 ^ 53) by (vm_compute; reflexivity).
  rewrite round_small by lia. cbn [add].
  rewrite round_small by lia.
  unfold arrayFrom, toLength, lineRange.
  replace (Z.max 0 (Z.min (v2 - v1 + 1) (2 ^ 53 - 1))) with (v2 - v1 + 1)
    by lia.
  assert (Hle : (2 ^ 32 - 1 <? v2 - v1 + 1) = false) by (apply Z.ltb_ge; lia).
  rewrite Hle. f_equal. rewrite map_map. apply map_ext_in.
  intros i Hi. apply in_seq in Hi. cbn [add].
  apply round_small. lia.
Qed.

Lemma arrayFrom_large v1 v2 :
  0 <= v1 <= v2 -> v2 < 2 ^ 53 -> 2 ^ 32 - 1 < v2 - v1 + 1 ->
  arrayFrom (add (sub (Int v2) (Int v1)) (Int 1)) (Int v1) = RangeError.
Proof.
  intros Hv Hb Hlen. cbn [sub].
  rewrite round_small by lia. cbn [add].
  assert (Hr : round (v2 - v1 + 1) = Int (v2 - v1 + 1)).
  { destruct (Z_lt_ge_dec (v2 - v1 + 1) (2 ^ 53)) as [Hlt|Hge].
    - apply round_small. lia.
    - assert (E : v2 - v1 + 1 = 2 ^ 53) by lia. rewrite E.
      vm_compute. reflexivity. }
  rewrite Hr. unfold arrayFrom, toLength.
  assert (Hgt : (2 ^ 32 - 1 <? Z.max 0 (Z.min (v2 - v1 + 1) (2 ^ 53 - 1)))
                = true).
  { apply Z.ltb_lt.
    assert (P32 : 2 ^ 32 - 1 < 2 ^ 53 - 1) by (vm_compute; reflexivity).
    lia. }
  now rewrite Hgt.
Qed.

Lemma digitsValue_nonneg ds :
  Forall (fun d => 0 <= d <= 9) ds -> 0 <= digitsValue 10 ds.
Proof.
  unfold digitsValue. intros H.
  assert (G : forall acc, 0 <= acc ->
                0 <= fold_left (fun a d => a * 10 + d) ds acc).
  { induction H as [|d ds Hd Hds IH]; intros acc Hacc; cbn; [exact Hacc|].
    apply IH. lia. }
  apply G. lia.
Qed.

(** A range [a-b] is read as the numbers from [a] to [b]; when [a] is
    greater than [b] it is read as [a] alone. *)
Lemma expandPart_range ds1 ds2 :
  ds1 <> [] -> ds2 <> [] ->
  Forall (fun d => 0 <= d <= 9) ds1 -> Forall (fun d => 0 <= d <= 9) ds2 ->
  let v1 := digitsValue 10 ds1 in
  let v2 := digitsValue 10 ds2 in
  v1 < 2 ^ 53 -> v2 < 2 ^ 53 ->
  expandPart (digitChars ds1 ++ DASH :: digitChars ds2)
  = if v1 <=? v2
    then arrayFrom (add (sub (Int v2) (Int v1)) (Int 1)) (Int v1)
    else Ok [Int v1].
Proof.
  intros Hne1 Hne2 Hds1 Hds2 v1 v2 Hb1 Hb2.
  pose proof (digitsValue_nonneg ds1 Hds1) as Hp1.
  pose proof (digitsValue_nonneg ds2 Hds2) as Hp2.
  fold v1 in Hp1. fold v2 in Hp2.
  unfold expandPart.
  rewrite trim_id.
  2:{ rewrite forallb_app. cbn [forallb].
      rewrite !digitChars_no_space by assumption. reflexivity. }
  unfold splitOn. rewrite splitOnAux_dash by now apply digitChars_no_dash.
  rewrite splitOn_no_dash by now apply digitChars_no_dash.
  cbn [app].
  assert (E1 : parseInt (digitChars ds1) = Int v1).
  { rewrite <- (app_nil_r (digitChars ds1)).
    rewrite parseInt_digits by auto. apply round_small. lia. }
  assert (E2 : parseInt (digitChars ds2) = Int v2).
  { rewrite <- (app_nil_r (digitChars ds2)).
    rewrite parseInt_digits by auto. apply round_small. lia. }
  assert (E3 : parseInt (digitChars ds1 ++ DASH :: digitChars ds2) = Int v1).
  { rewrite parseInt_digits by eauto. apply round_small. lia. }
  rewrite E1, E2, E3.
  cbn [isNaN negb andb leb]. destruct (v1 <=? v2); reflexivity.
Qed.

(** *** Separators *)

Lemma splitRuns_part s : forall cur inRun,
  forallb (fun c => negb (isSeparator c)) s = true ->
  splitRuns s cur inRun = [cur ++ s].
Proof.
  induction s as [|c s IH]; intros cur inRun H; cbn [splitRuns].
  - now rewrite app_nil_r.
  - cbn [forallb] in H. apply andb_true_iff in H as [Hc Hs].
    apply negb_true_iff in Hc. rewrite Hc, IH by assumption.
    now rewrite <- app_assoc.
Qed.

Lemma splitRuns_skip sep : forall b cur,
  forallb isSeparator sep = true ->
  splitRuns (sep ++ b) cur true = splitRuns b cur true.
Proof.
  induction sep as [|x sep IH]; intros b cur H; [reflexivity|].
  cbn [forallb] in H. apply andb_true_iff in H as [Hx Hs].
  cbn [app splitRuns]. rewrite Hx. now apply IH.
Qed.

Lemma splitRuns_app a' : forall c cur inRun sep b,
  isSeparator c = false ->
  sep <> [] -> forallb isSeparator sep = true ->
  splitRuns ((a' ++ [c]) ++ sep ++ b) cur inRun
  = splitRuns (a' ++ [c]) cur inRun ++ splitRuns b [] true.
Proof.
  induction a' as [|y a' IH]; intros c cur inRun sep b Hc Hne Hsep.
  - cbn [app splitRuns]. rewrite Hc.
    destruct sep as [|x sep]; [contradiction|].
    cbn [forallb] in Hsep. apply andb_true_iff in Hsep as [Hx Hs].
    cbn [app splitRuns]. rewrite Hx. now rewrite splitRuns_skip.
  - cbn [app splitRuns]. destruct (isSeparator y).
    + destruct inRun.
      * now apply IH.
      * cbn [app]. f_equal. now apply IH.
    + now apply IH.
Qed.

Lemma splitRuns_start c b cur :
  isSeparator c = false ->
  splitRuns (c :: b) cur true = splitRuns (c :: b) cur false.
Proof. intros H. cbn [splitRuns]. now rewrite H. Qed.

Lemma flatMapParts_app l1 l2 :
  flatMapParts (l1 ++ l2)
  = match flatMapParts l1 with
    | Ok x => match flatMapParts l2 with
              | Ok y => Ok (x ++ y)
              | RangeError => RangeError
              end
    | RangeError => RangeError
    end.
Proof.
  induction l1 as [|p l1 IH]; cbn [app flatMapParts].
  - now destruct (flatMapParts l2).
  - destruct (expandPart p); [|reflexivity]. rewrite IH.
    destruct (flatMapParts l1); [|reflexivity].
    destruct (flatMapParts l2); [|reflexivity].
    now rewrite app_assoc.
Qed.

Lemma separator_of_space c : is_space c = true -> isSeparator c = true.
Proof. intros H. unfold isSeparator. rewrite H. apply orb_true_r. Qed.

Lemma separator_allowed c : isSeparator c = true -> isAllowed c = true.
Proof.
  unfold isSeparator, isAllowed. intros H.
  apply orb_true_iff in H as [->| ->];
    rewrite ?orb_true_r; reflexivity.
Qed.

(** The path [parseLineNumbers] takes on an input made of allowed code
    units that holds something other than a separator. *)
Lemma parseLineNumbers_main s :
  forallb isAllowed s = true ->
  existsb (fun c => negb (isSeparator c)) s = true ->
  parseLineNumbers s
  = match flatMapParts (splitRuns s [] false) with
    | Ok ns => Ok (filter isLineNumber ns)
    | RangeError => RangeError
    end.
Proof.
  intros Hall Hex. unfold parseLineNumbers.
  assert (Ht : trim s <> []).
  { apply trim_nonblank. apply existsb_exists in Hex as (c & Hin & Hc).
    apply existsb_exists. exists c. split; [exact Hin|].
    destruct (is_space c) eqn:E; [|reflexivity].
    now rewrite (separator_of_space c E) in Hc. }
  destruct (trim s); [contradiction|]. now rewrite Hall.
Qed.

Lemma filter_lineNumbers zs :
  filter isLineNumber (map Int zs) = map Int (filter (fun z => 0 <? z) zs).
Proof.
  induction zs as [|z zs IH]; [reflexivity|].
  cbn [map filter]. unfold isLineNumber at 1. cbn [isNaN negb andb gtb].
  destruct (0 <? z); cbn [map]; now rewrite IH.
Qed.

(** X14.  Two inputs put together with commas or blanks between them give
    the numbers of the first followed by the numbers of the second, as
    long as neither side of the join is a separator and both are made of
    digits, commas, blanks and dashes. *)
Theorem parseLineNumbers_compose a c sep d b :
  forallb isAllowed (a ++ [c]) = true ->
  isSeparator c = false ->
  sep <> [] -> forallb isSeparator sep = true ->
  isSeparator d = false ->
  forallb isAllowed (d :: b) = true ->
  parseLineNumbers ((a ++ [c]) ++ sep ++ d :: b)
  = appendResults (parseLineNumbers (a ++ [c])) (parseLineNumbers (d :: b)).
Proof.
  intros Ha Hc Hne Hsep Hd Hb.
  assert (Hexa : existsb (fun x => negb (isSeparator x)) (a ++ [c]) = true).
  { apply existsb_exists. exists c. split; [apply in_elt|]. now rewrite Hc. }
  assert (Hexb : existsb (fun x => negb (isSeparator x)) (d :: b) = true).
  { cbn [existsb]. now rewrite Hd. }
  rewrite (parseLineNumbers_main (a ++ [c]) Ha Hexa).
  rewrite (parseLineNumbers_main (d :: b) Hb Hexb).
  rewrite parseLineNumbers_main.
  - rewrite splitRuns_app by assumption.
    rewrite splitRuns_start by assumption.
    rewrite flatMapParts_app.
    destruct (flatMapParts (splitRuns (a ++ [c]) [] false)); [|reflexivity].
    destruct (flatMapParts (splitRuns (d :: b) [] false)); [|reflexivity].
    cbn [appendResults]. now rewrite filter_app.
  - rewrite (forallb_app _ (a ++ [c])), Ha, forallb_app, Hb, andb_true_r.
    cbn [andb]. apply forallb_forall. intros x Hx.
    apply separator_allowed. rewrite forallb_forall in Hsep. now apply Hsep.
  - rewrite existsb_app, Hexa. reflexivity.
Qed.

Lemma parseLineNumbers_compose_witness :
  parseLineNumbers (str "4-5
 ,7")
  = appendResults (parseLineNumbers (str "4-5")) (parseLineNumbers (str "7")).
Proof.
  apply (parseLineNumbers_compose (str "4-") 53%N [LF; 32%N; COMMA] 55%N []);
    try reflexivity. discriminate.
Defined.

Lemma parseLineNumbers_numeral ds :
  ds <> [] -> Forall (fun d => 0 <= d <= 9) ds ->
  digitsValue 10 ds < 2 ^ 53 ->
  parseLineNumbers (digitChars ds)
  = Ok (map Int (filter (fun z => 0 <? z) [digitsValue 10 ds])).
Proof.
  intros Hne Hds Hb.
  pose proof (digitsValue_nonneg ds Hds) as Hp.
  rewrite parseLineNumbers_main.
  - rewrite splitRuns_part by now apply digitChars_no_separator.
    cbn [app flatMapParts]. rewrite expandPart_numeral by assumption.
    rewrite round_small by lia. cbn [app].
    change [Int (digitsValue 10 ds)] with (map Int [digitsValue 10 ds]).
    now rewrite filter_lineNumbers.
  - now apply digitChars_allowed.
  - destruct ds as [|d ds]; [contradiction|].
    inversion Hds as [|? ? Hd _]; subst. cbn [digitChars map existsb].
    destruct (digitChar_facts d Hd) as (_ & _ & -> & _). reflexivity.
Qed.

(** X15.  A range [a-b] of two numerals gives the numbers from [a] to [b]
    in order, zero left out; if [a] is greater than [b] it gives [a]
    alone; and if the range holds more than [2^32 - 1] numbers the call
    throws a [RangeError]. *)
Theorem parseLineNumbers_range ds1 ds2 :
  ds1 <> [] -> ds2 <> [] ->
  Forall (fun d => 0 <= d <= 9) ds1 -> Forall (fun d => 0 <= d <= 9) ds2 ->
  let v1 := digitsValue 10 ds1 in
  let v2 := digitsValue 10 ds2 in
  let input := digitChars ds1 ++ DASH :: digitChars ds2 in
  v1 < 2 ^ 53 -> v2 < 2 ^ 53 ->
  (v1 <= v2 -> v2 - v1 + 1 <= 2 ^ 32 - 1 ->
   parseLineNumbers input
   = Ok (map Int (filter (fun z => 0 <? z) (lineRange v1 v2))))
  /\ (v1 <= v2 -> 2 ^ 32 - 1 < v2 - v1 + 1 ->
      parseLineNumbers input = RangeError)
  /\ (v2 < v1 -> parseLineNumbers input = Ok [Int v1]).
Proof.
  intros Hne1 Hne2 Hds1 Hds2 v1 v2 input Hb1 Hb2.
  pose proof (digitsValue_nonneg ds1 Hds1) as Hp1.
  pose proof (digitsValue_nonneg ds2 Hds2) as Hp2.
  fold v1 in Hp1. fold v2 in Hp2.
  assert (Hmain : parseLineNumbers input
                  = match (if v1 <=? v2
                           then arrayFrom (add (sub (Int v2) (Int v1)) (Int 1))
                                          (Int v1)
                           else Ok [Int v1]) with
                    | Ok ns => Ok (filter isLineNumber ns)
                    | RangeError => RangeError
                    end).
  { unfold input. rewrite parseLineNumbers_main.
    - rewrite splitRuns_part.
      + cbn [app flatMapParts].
        rewrite (expandPart_range ds1 ds2) by assumption. fold v1 v2.
        destruct (if v1 <=? v2 then _ else _); [|reflexivity].
        now rewrite app_nil_r.
      + rewrite forallb_app. cbn [forallb].
        rewrite !digitChars_no_separator by assumption. reflexivity.
    - rewrite forallb_app. cbn [forallb].
      rewrite !digitChars_allowed by assumption. reflexivity.
    - destruct ds1 as [|d ds]; [contradiction|].
      inversion Hds1 as [|? ? Hd _]; subst. cbn [digitChars map app existsb].
      destruct (digitChar_facts d Hd) as (_ & _ & -> & _). reflexivity. }
  rewrite Hmain. split; [|split].
  - intros Hle Hlen. apply Z.leb_le in Hle as E. rewrite E.
    rewrite arrayFrom_small by lia. now rewrite filter_lineNumbers.
  - intros Hle Hlen. apply Z.leb_le in Hle as E. rewrite E.
    now rewrite arrayFrom_large by lia.
  - intros Hgt. apply Z.leb_gt in Hgt as E. rewrite E.
    cbn [filter]. unfold isLineNumber. cbn [isNaN negb andb gtb].
    assert (Hpos : (0 <? v1) = true) by (apply Z.ltb_lt; lia).
    now rewrite Hpos.
Qed.

Lemma parseLineNumbers_range_witness :
  parseLineNumbers (str "0-3") = Ok [Int 1; Int 2; Int 3]
  /\ parseLineNumbers (str "1-5000000000") = RangeError
  /\ parseLineNumbers (str "5-3") = Ok [Int 5].
Proof.
  split; [|split].
  - apply (parseLineNumbers_range [0] [3]); try discriminate;
      try (repeat constructor; lia); vm_compute; congruence.
  - apply (parseLineNumbers_range [1] [5; 0; 0; 0; 0; 0; 0; 0; 0; 0]);
      try discriminate; try (repeat constructor; lia);
      vm_compute; congruence.
  - apply (parseLineNumbers_range [5] [3]); try discriminate;
      try (repeat constructor; lia); vm_compute; congruence.
Defined.

(** *** Numerals *)

Lemma digitsValue_app ds d :
  digitsValue 10 (ds ++ [d]) = digitsValue 10 ds * 10 + d.
Proof. unfold digitsValue. now rewrite fold_left_app. Qed.

Lemma decimalDigits_spec fuel : forall n,
  0 <= n < 10 ^ Z.of_nat (S fuel) ->
  decimalDigits (S fuel) n <> []
  /\ Forall (fun d => 0 <= d <= 9) (decimalDigits (S fuel) n)
  /\ digitsValue 10 (decimalDigits (S fuel) n) = n.
Proof.
  induction fuel as [|fuel IH]; intros n Hn;
    cbn [decimalDigits]; destruct (n <? 10) eqn:E.
  - apply Z.ltb_lt in E.
    split; [discriminate|]. split; [repeat constructor; lia|].
    unfold digitsValue. cbn [fold_left]. lia.
  - apply Z.ltb_ge in E. change (10 ^ Z.of_nat 1) with 10 in Hn. lia.
  - apply Z.ltb_lt in E.
    split; [discriminate|]. split; [repeat constructor; lia|].
    unfold digitsValue. cbn [fold_left]. lia.
  - apply Z.ltb_ge in E.
    rewrite Nat2Z.inj_succ, Z.pow_succ_r in Hn by lia.
    destruct (IH (n / 10)) as (Hne & Hds & Hv).
    { split; [apply Z.div_pos; lia|].
      apply Z.div_lt_upper_bound; lia. }
    change (if n / 10 <? 10 then [n / 10]
            else decimalDigits fuel (n / 10 / 10) ++ [(n / 10) mod 10])
      with (decimalDigits (S fuel) (n / 10)).
    split; [|split].
    + intros H. now apply app_eq_nil in H as [_ H].
    + apply Forall_app. split; [exact Hds|].
      repeat constructor; pose proof (Z.mod_pos_bound n 10); lia.
    + rewrite digitsValue_app, Hv.
      pose proof (Z.div_mod n 10). lia.
Qed.

Lemma decimal_spec n :
  0 <= n ->
  exists ds,
    decimal n = digitChars ds
    /\ ds <> []
    /\ Forall (fun d => 0 <= d <= 9) ds
    /\ digitsValue 10 ds = n.
Proof.
  intros Hn. unfold decimal. eexists. split; [reflexivity|].
  apply decimalDigits_spec. split; [exact Hn|].
  rewrite Nat2Z.inj_succ, Z2Nat.id by apply Z.log2_nonneg.
  destruct (Z.eq_dec n 0) as [->|Hz]; [vm_compute; reflexivity|].
  pose proof (Z.log2_spec n ltac:(lia)) as [_ Hlt].
  eapply Z.lt_le_trans; [exact Hlt|].
  apply Z.pow_le_mono_l. pose proof (Z.log2_nonneg n). lia.
Qed.

Lemma join_decimal_shape n ns :
  0 <= n -> Forall (fun m => 0 <= m) ns ->
  forallb isAllowed (join (str ", ") (map decimal (n :: ns))) = true
  /\ exists d b,
       join (str ", ") (map decimal (n :: ns)) = d :: b
       /\ isSeparator d = false.
Proof.
  revert n. induction ns as [|m ns IH]; intros n Hn Hns.
  - cbn [map join].
    destruct (decimal_spec n Hn) as (ds & -> & Hne & Hds & _).
    split; [now apply digitChars_allowed|].
    destruct ds as [|d ds]; [contradiction|].
    inversion Hds as [|? ? Hd _]; subst. cbn [digitChars map].
    destruct (digitChar_facts d Hd) as (_ & _ & Hsep & _). eauto.
  - inversion Hns as [|? ? Hm Hns']; subst.
    destruct (IH m Hm Hns') as (Hall & _).
    cbn [map join] in *.
    destruct (decimal_spec n Hn) as (ds & -> & Hne & Hds & _).
    split.
    + rewrite !forallb_app, digitChars_allowed by assumption.
      cbn [andb]. change (forallb isAllowed (str ", ")) with true.
      exact Hall.
    + destruct ds as [|d ds]; [contradiction|].
      inversion Hds as [|? ? Hd _]; subst. cbn [digitChars map app].
      destruct (digitChar_facts d Hd) as (_ & _ & Hsep & _). eauto.
Qed.

(** X16.  The editor shows the lines of a description as
    [lines.join(", ")] and reads the field back with [parseLineNumbers]:
    for positive line numbers below [2^53] this gives the same list
    back. *)
Theorem parseLineNumbers_join ns :
  Forall (fun n => 0 < n < 2 ^ 53) ns ->
  parseLineNumbers (join (str ", ") (map decimal ns)) = Ok (map Int ns).
Proof.
  induction 1 as [|n ns Hn Hns IH]; [reflexivity|].
  assert (Hnum : parseLineNumbers (decimal n) = Ok [Int n]).
  { destruct (decimal_spec n ltac:(lia)) as (ds & -> & Hne & Hds & Hv).
    rewrite parseLineNumbers_numeral by (auto; lia). rewrite Hv.
    cbn [filter]. assert (E : (0 <? n) = true) by (apply Z.ltb_lt; lia).
    now rewrite E. }
  destruct ns as [|m ns]; [exact Hnum|].
  inversion Hns as [|? ? Hm Hns']; subst.
  destruct (join_decimal_shape m ns) as (Hall & d & b & Heq & Hd).
  { lia. }
  { revert Hns'. apply Forall_impl. intros x Hx. lia. }
  cbn [map join] in *.
  destruct (decimal_spec n ltac:(lia)) as (ds & Hdec & Hne & Hds & Hv).
  destruct (exists_last Hne) as (ds' & dl & ->).
  assert (Hdl : 0 <= dl <= 9).
  { apply Forall_app in Hds as [_ Hl]. now inversion Hl. }
  rewrite Hdec in *. unfold digitChars in *. rewrite map_app in *.
  cbn [map] in *. rewrite Heq in *.
  rewrite parseLineNumbers_compose.
  - match goal with
    | |- appendResults ?x _ = _ =>
        replace x with (@Ok (list number) [Int n])
          by (symmetry; exact Hnum)
    end.
    rewrite IH. reflexivity.
  - fold (digitChars ds'). rewrite forallb_app. cbn [forallb].
    rewrite digitChars_allowed by (apply Forall_app in Hds; tauto).
    destruct (digitChar_facts dl Hdl) as (_ & _ & _ & _ & -> & _).
    reflexivity.
  - apply (digitChar_facts dl Hdl).
  - discriminate.
  - reflexivity.
  - exact Hd.
  - exact Hall.
Qed.

Lemma parseLineNumbers_join_witness :
  parseLineNumbers (str "3, 5, 12") = Ok [Int 3; Int 5; Int 12].
Proof.
  apply (parseLineNumbers_join [3; 5; 12]).
  repeat constructor; vm_compute; congruence.
Defined.

(* ================================================================== *)
(** ** The workshops in local storage                                 *)
(* ================================================================== *)

Import WorkshopService.

Lemma sameString_eq a : forall b, sameString a b = true <-> a = b.
Proof.
  induction a as [|x a IH]; intros [|y b]; cbn; split; try easy.
  - intros H. apply andb_true_iff in H as [Hx Hab].
    apply N.eqb_eq in Hx. apply IH in Hab. now subst.
  - intros [= -> ->]. rewrite N.eqb_refl. now apply IH.
Qed.

Lemma sameString_refl a : sameString a a = true.
Proof. now apply sameString_eq. Qed.

Section StorageFacts.

Variable Workshop : Type.
Variable id : Workshop -> jsstring.
Variable stringify : list Workshop -> jsstring.
Variable parseJson : jsstring -> option (list Workshop).
Variable accepts : jsstring -> bool.

(** What is written can be read back, and is never the empty string. *)
Hypothesis codec : forall ws, parseJson (stringify ws) = Some ws.
Hypothesis codec_nonempty : forall ws, stringify ws <> [].

Lemma getWorkshops_written ws :
  getWorkshops Workshop parseJson (Some (stringify ws)) = ws.
Proof.
  unfold getWorkshops. pose proof (codec_nonempty ws) as Hne.
  destruct (stringify ws) eqn:E; [contradiction|].
  rewrite <- E, codec. reflexivity.
Qed.

Lemma find_put ws w :
  find (fun x => sameString (id x) (id w)) (put Workshop id ws w) = Some w.
Proof.
  induction ws as [|x ws IH]; cbn.
  - now rewrite sameString_refl.
  - destruct (sameString (id x) (id w)) eqn:E; cbn.
    + now rewrite sameString_refl.
    + now rewrite E.
Qed.

Lemma find_put_other ws w i :
  id w <> i ->
  find (fun x => sameString (id x) i) (put Workshop id ws w)
  = find (fun x => sameString (id x) i) ws.
Proof.
  intros Hi.
  assert (Hw : sameString (id w) i = false).
  { apply not_true_iff_false. now rewrite sameString_eq. }
  induction ws as [|x ws IH]; cbn.
  - now rewrite Hw.
  - destruct (sameString (id x) (id w)) eqn:E; cbn.
    + apply sameString_eq in E. rewrite E, Hw. reflexivity.
    + now rewrite IH.
Qed.

Lemma put_ids ws w :
  In (id w) (map id ws) ->
  map id (put Workshop id ws w) = map id ws.
Proof.
  induction ws as [|x ws IH]; [intros []|].
  cbn. destruct (sameString (id x) (id w)) eqn:E.
  - intros _. apply sameString_eq in E. cbn. now rewrite E.
  - intros [H|H].
    + rewrite <- sameString_eq in H. congruence.
    + cbn. now rewrite IH.
Qed.

Lemma put_new ws w :
  ~ In (id w) (map id ws) ->
  put Workshop id ws w = ws ++ [w].
Proof.
  induction ws as [|x ws IH]; intros H; [reflexivity|].
  cbn in *. destruct (sameString (id x) (id w)) eqn:E.
  - apply sameString_eq in E. tauto.
  - rewrite IH; tauto.
Qed.

End StorageFacts.

(** X17.  After a save that local storage accepts, looking the saved
    workshop up by its id gives that workshop, every other id gives what
    it gave before, a workshop whose id was already stored takes the place
    of the old one, and a new one is added at the end. *)
Theorem save_then_get
        (Workshop : Type) (id : Workshop -> jsstring)
        (stringify : list Workshop -> jsstring)
        (parseJson : jsstring -> option (list Workshop))
        (accepts : jsstring -> bool) storage w storage' :
  (forall ws, parseJson (stringify ws) = Some ws) ->
  (forall ws, stringify ws <> []) ->
  saveWorkshop Workshop id stringify parseJson accepts storage w
  = Stored storage' ->
  getWorkshopById Workshop id parseJson storage' (id w) = Some w
  /\ (forall i, id w <> i ->
        getWorkshopById Workshop id parseJson storage' i
        = getWorkshopById Workshop id parseJson storage i)
  /\ (In (id w) (map id (getWorkshops Workshop parseJson storage)) ->
      map id (getWorkshops Workshop parseJson storage')
      = map id (getWorkshops Workshop parseJson storage))
  /\ (~ In (id w) (map id (getWorkshops Workshop parseJson storage)) ->
      getWorkshops Workshop parseJson storage'
      = getWorkshops Workshop parseJson storage ++ [w]).
Proof.
  intros codec codec_nonempty Hsave.
  unfold saveWorkshop, setItem in Hsave.
  destruct (accepts _); [|discriminate]. injection Hsave as <-.
  unfold getWorkshopById.
  rewrite (getWorkshops_written Workshop stringify parseJson codec
             codec_nonempty).
  repeat split.
  - apply find_put.
  - intros i Hi. now apply find_put_other.
  - apply put_ids.
  - apply put_new.
Qed.

Lemma save_then_get_witness :
  getWorkshopById N (fun w => [w])
                  (fun s => match s with 91%N :: ws => Some ws | _ => None end)
                  (Some (str "[ab")) (str "b") = Some 98%N.
Proof.
  destruct (save_then_get N (fun w => [w]) (fun ws => 91%N :: ws)
              (fun s => match s with 91%N :: ws => Some ws | _ => None end)
              (fun _ => true) (Some (str "[ab")) 98%N (Some (str "[ab")))
    as (Hget & _).
  - reflexivity.
  - discriminate.
  - reflexivity.
  - exact Hget.
Defined.

(** X18.  After a delete that local storage accepts, the id deleted is no
    longer found and every other id gives what it gave before. *)
Theorem delete_then_get
        (Workshop : Type) (id : Workshop -> jsstring)
        (stringify : list Workshop -> jsstring)
        (parseJson : jsstring -> option (list Workshop))
        (accepts : jsstring -> bool) storage i storage' :
  (forall ws, parseJson (stringify ws) = Some ws) ->
  (forall ws, stringify ws <> []) ->
  deleteWorkshop Workshop id stringify parseJson accepts storage i
  = Stored storage' ->
  getWorkshopById Workshop id parseJson storage' i = None
  /\ forall j, i <> j ->
       getWorkshopById Workshop id parseJson storage' j
       = getWorkshopById Workshop id parseJson storage j.
Proof.
  intros codec codec_nonempty Hdel.
  unfold deleteWorkshop, setItem in Hdel.
  destruct (accepts _); [|discriminate]. injection Hdel as <-.
  unfold getWorkshopById.
  rewrite (getWorkshops_written Workshop stringify parseJson codec
             codec_nonempty).
  generalize (getWorkshops Workshop parseJson storage) as ws.
  intros ws. split.
  - induction ws as [|x ws IH]; [reflexivity|]. cbn.
    destruct (sameString (id x) i) eqn:E; cbn; [exact IH|].
    now rewrite E.
  - intros j Hj. induction ws as [|x ws IH]; [reflexivity|]. cbn.
    destruct (sameString (id x) i) eqn:E; cbn.
    + apply sameString_eq in E.
      assert (Hx : sameString (id x) j = false).
      { apply not_true_iff_false. rewrite sameString_eq. congruence. }
      now rewrite Hx.
    + now rewrite IH.
Qed.

Lemma delete_then_get_witness :
  getWorkshopById N (fun w => [w])
                  (fun s => match s with 91%N :: ws => Some ws | _ => None end)
                  (Some (str "[a")) (str "b") = None.
Proof.
  destruct (delete_then_get N (fun w => [w]) (fun ws => 91%N :: ws)
              (fun s => match s with 91%N :: ws => Some ws | _ => None end)
              (fun _ => true) (Some (str "[ab")) (str "b")
              (Some (str "[a")))
    as (Hget & _).
  - reflexivity.
  - discriminate.
  - reflexivity.
  - exact Hget.
Defined.

(** X19.  When what local storage holds cannot be parsed, the workshops
    read are none, and a save that follows keeps the saved workshop
    only: what was stored before is overwritten. *)
Theorem save_over_unreadable
        (Workshop : Type) (id : Workshop -> jsstring)
        (stringify : list Workshop -> jsstring)
        (parseJson : jsstring -> option (list Workshop))
        (accepts : jsstring -> bool) data w storage' :
  (forall ws, parseJson (stringify ws) = Some ws) ->
  (forall ws, stringify ws <> []) ->
  parseJson data = None ->
  saveWorkshop Workshop id stringify parseJson accepts (Some data) w
  = Stored storage' ->
  getWorkshops Workshop parseJson (Some data) = []
  /\ getWorkshops Workshop parseJson storage' = [w].
Proof.
  intros codec codec_nonempty Hbad Hsave.
  assert (Hnone : getWorkshops Workshop parseJson (Some data) = []).
  { unfold getWorkshops. destruct data; [reflexivity|]. now rewrite Hbad. }
  split; [exact Hnone|].
  unfold saveWorkshop, setItem in Hsave. rewrite Hnone in Hsave.
  destruct (accepts _); [|discriminate]. injection Hsave as <-.
  apply (getWorkshops_written Workshop stringify parseJson codec
           codec_nonempty).
Qed.

Lemma save_over_unreadable_witness :
  getWorkshops N
               (fun s => match s with 91%N :: ws => Some ws | _ => None end)
               (Some (str "[b")) = [98%N].
Proof.
  destruct (save_over_unreadable N (fun w => [w]) (fun ws => 91%N :: ws)
              (fun s => match s with 91%N :: ws => Some ws | _ => None end)
              (fun _ => true) (str "{oops") 98%N (Some (str "[b")))
    as (_ & Hget).
  - reflexivity.
  - discriminate.
  - reflexivity.
  - reflexivity.
  - exact Hget.
Defined.

(* ================================================================== *)
(** ** Moving a step of a workshop                                    *)
(* ================================================================== *)

Import WorkshopEditor.

Lemma take_exact {A} (a b : list A) : firstn (List.length a) (a ++ b) = a.
Proof. induction a as [|x a IH]; cbn; [now destruct b | now rewrite IH]. Qed.

Lemma drop_exact {A} (a b : list A) : skipn (List.length a) (a ++ b) = b.
Proof. induction a as [|x a IH]; cbn; auto. Qed.

Lemma drop_succ {A} (a : list A) x b :
  skipn (S (List.length a)) (a ++ x :: b) = b.
Proof. induction a as [|y a IH]; cbn; auto. Qed.

Lemma insert_at_facts {A} (r : list A) (x : A) (j : nat) :
  (j <= List.length r)%nat ->
  let moved := firstn j r ++ x :: skipn j r in
  Permutation (x :: r) moved
  /\ nth_error moved j = Some x
  /\ firstn j moved ++ skipn (S j) moved = r.
Proof.
  intros Hj moved.
  assert (Hlen : List.length (firstn j r) = j)
    by (rewrite length_firstn; lia).
  split; [|split].
  - unfold moved. rewrite <- (firstn_skipn j r) at 1.
    apply Permutation_middle.
  - unfold moved. rewrite nth_error_app2 by lia.
    rewrite Hlen, Nat.sub_diag. reflexivity.
  - unfold moved. pose proof (firstn_skipn j r) as Hr.
    revert Hlen Hr. generalize (firstn j r) (skipn j r). intros f t <- <-.
    now rewrite take_exact, drop_succ.
Qed.

(** X20.  Moving a step from one position of the list to another keeps
    every step exactly once: the result is a rearrangement of the steps
    with the moved step at the target position and the other steps in
    their old order, and the target becomes the selected step.  A target
    outside the list changes nothing. *)
Theorem move_step (Step : Type) (steps : list Step)
        (selected fromIndex toIndex : Z) :
  let len := Z.of_nat (List.length steps) in
  0 <= fromIndex < len ->
  (0 <= toIndex < len ->
   exists moved,
     handleMoveStep Step len (map Some steps) selected fromIndex toIndex
     = (map Some moved, toIndex)
     /\ Permutation steps moved
     /\ nth_error moved (Z.to_nat toIndex)
        = nth_error steps (Z.to_nat fromIndex)
     /\ firstn (Z.to_nat toIndex) moved ++ skipn (S (Z.to_nat toIndex)) moved
        = firstn (Z.to_nat fromIndex) steps
            ++ skipn (S (Z.to_nat fromIndex)) steps)
  /\ (toIndex < 0 \/ len <= toIndex ->
      handleMoveStep Step len (map Some steps) selected fromIndex toIndex
      = (map Some steps, selected)).
Proof.
  intros len Hfrom. split.
  - intros Hto.
    set (k := Z.to_nat fromIndex). set (j := Z.to_nat toIndex).
    assert (Hk : (k < List.length steps)%nat) by (unfold k, len in *; lia).
    destruct (nth_error steps k) as [x|] eqn:Hx;
      [|apply nth_error_None in Hx; lia].
    destruct (nth_error_split steps k Hx) as (a & b & Hsteps & Ha).
    set (r := a ++ b).
    assert (Hr : List.length r = (List.length steps - 1)%nat).
    { unfold r. rewrite Hsteps, !length_app. cbn. lia. }
    assert (Hj : (j <= List.length r)%nat) by (unfold j, len in *; lia).
    destruct (insert_at_facts r x j Hj) as (Hperm & Hnth & Hrest).
    exists (firstn j r ++ x :: skipn j r).
    split; [|split; [|split]].
    + unfold handleMoveStep.
      assert (Hguard : (toIndex <? 0) || (toIndex >=? len) = false).
      { apply orb_false_iff. split; [apply Z.ltb_ge; lia|].
        rewrite Z.geb_leb. apply Z.leb_gt. lia. }
      rewrite Hguard. unfold spliceOut, spliceStart.
      rewrite length_map. fold len.
      assert (E1 : (fromIndex <? 0) = false) by (apply Z.ltb_ge; lia).
      rewrite E1. replace (Z.min fromIndex len) with fromIndex by lia.
      fold k.
      assert (Hm : map (@Some Step) steps
                   = map (@Some Step) a ++ Some x :: map (@Some Step) b)
        by (rewrite Hsteps, map_app; reflexivity).
      rewrite Hm.
      assert (Hla : List.length (map (@Some Step) a) = k)
        by now rewrite length_map.
      rewrite <- Hla. rewrite drop_exact, take_exact, drop_succ.
      cbn [firstn].
      rewrite <- map_app. fold r.
      unfold spliceIn, spliceStart. rewrite length_map, Hr.
      assert (E2 : (toIndex <? 0) = false) by (apply Z.ltb_ge; lia).
      rewrite E2.
      replace (Z.min toIndex (Z.of_nat (List.length steps - 1)))
        with toIndex by (unfold len in *; lia).
      fold j. rewrite firstn_map, skipn_map.
      rewrite map_app. reflexivity.
    + rewrite Hsteps at 1.
      eapply Permutation_trans; [|exact Hperm].
      symmetry. apply Permutation_middle.
    + exact Hnth.
    + rewrite Hrest. unfold r. rewrite Hsteps, <- Ha.
      now rewrite take_exact, drop_succ.
  - intros Hout. unfold handleMoveStep.
    assert (Hguard : (toIndex <? 0) || (toIndex >=? len) = true).
    { apply orb_true_iff. destruct Hout as [H|H].
      - left. now apply Z.ltb_lt.
      - right. rewrite Z.geb_leb. now apply Z.leb_le. }
    now rewrite Hguard.
Qed.

Lemma move_step_witness :
  handleMoveStep Z 3 [Some 10; Some 20; Some 30] 0 0 2
  = ([Some 20; Some 30; Some 10], 2).
Proof.
  destruct (move_step Z [10; 20; 30] 0 0 2) as (Hin & _); [simpl; lia|].
  destruct Hin as (moved & Heq & _); [simpl; lia|].
  reflexivity.
Defined.

(* ================================================================== *)
(** ** The piece after a marker                                       *)
(* ================================================================== *)

Lemma splitOnAux_nonempty sep s : forall skip cur,
  splitOnAux sep s skip cur <> [].
Proof.
  induction s as [|c s IH]; intros skip cur; cbn [splitOnAux];
    [discriminate|].
  destruct skip; [|apply IH].
  destruct (strip_prefix sep (c :: s)); [discriminate | apply IH].
Qed.

(** A line that includes the marker splits into at least two pieces, so
    the piece [split(marker)[1]] the file service reads is there. *)
Lemma includes_splitOn sep s :
  sep <> [] ->
  includes s sep = true ->
  (2 <= List.length (splitOn sep s))%nat.
Proof.
  intros Hsep. unfold splitOn. generalize (@nil cu) as cur.
  induction s as [|c s IH]; intros cur H.
  - cbn in H. destruct sep; [contradiction | discriminate].
  - cbn [includes] in H. cbn [splitOnAux].
    destruct (strip_prefix sep (c :: s)) eqn:E.
    + cbn [List.length].
      pose proof (splitOnAux_nonempty sep s (List.length sep - 1) []) as Hne.
      destruct (splitOnAux sep s (List.length sep - 1) []);
        [contradiction | cbn; lia].
    + now apply IH.
Qed.

(** The file with a documentation header, read. *)
Example readMoveFile_documented :
  MoveFileService.readMoveFile (Some documented)
  = MoveFileService.mkMoveFile
      (str "A coin.
Second line.")
      (str "module m {
}").
Proof. vm_compute. reflexivity. Qed.
